(** * NewBlue Titler Live bridge: the feedback cache and its rebuild pipeline

    A shallow embedding of [src/index.js]: the cache-key function
    [makeCacheKeyUsingOptions], the host-facing [feedback] evaluation, the
    feedback-change push handler, [rebuildFeedbackCache], the two remote
    queries [queryFeedbackState] / [queryFeedbackDetails] and the socket
    handlers that arm and clear the reconnect watchdog.

    JavaScript objects that are used as dictionaries (the cache, the pending
    change set, a state record, the image set) are [gmap]s.  The option bag is
    an association list in enumeration order, because [JSON.stringify] prints
    the properties in that order.  Timers live in an explicit event-loop
    table; promises are represented by the way they settle. *)

From Stdlib Require Import ZArith Ascii String List DecimalString.
From stdpp Require Import gmap strings list fin_maps.

Local Open Scope Z_scope.

(** ** JSON values and [JSON.stringify] *)

Module Json.

(** What a property of an option bag or of a parsed state record holds.
    Numbers are the integers that JavaScript prints in plain decimal (the
    safe integers); [VUndef] is a property that is present and holds
    [undefined]. *)
Inductive value : Type :=
| VUndef
| VNull
| VBool (b : bool)
| VNum (z : Z)
| VStr (s : string).

#[export] Instance value_eq_dec : EqDecision value.
Proof. solve_decision. Defined.

(** A template literal [`${v}`], also the property key of [obj[v]]. *)
Definition toString (v : value) : string :=
  match v with
  | VUndef => "undefined"
  | VNull => "null"
  | VBool true => "true"
  | VBool false => "false"
  | VNum z => NilZero.string_of_int (Z.to_int z)
  | VStr s => s
  end.

Definition dquote : ascii := ascii_of_nat 34.
Definition backslash : ascii := ascii_of_nat 92.

Definition hexdigits : list ascii :=
  ["0"; "1"; "2"; "3"; "4"; "5"; "6"; "7"; "8"; "9"; "a"; "b"; "c"; "d"; "e"; "f"]%char.

Definition hexdigit (n : Z) : ascii := nth (Z.to_nat n) hexdigits "0"%char.

(** Two lowercase hex digits of a byte. *)
Definition hexbyte (b : Z) (rest : string) : string :=
  String (hexdigit ((b / 16) mod 16)) (String (hexdigit (b mod 16)) rest).

(** [QuoteJSONString]: the escapes of one code unit. *)
Definition escape_char (c : ascii) (rest : string) : string :=
  let n := Z.of_nat (nat_of_ascii c) in
  if n =? 34 then String backslash (String dquote rest)
  else if n =? 92 then String backslash (String backslash rest)
  else if n =? 8 then String backslash (String "b" rest)
  else if n =? 9 then String backslash (String "t" rest)
  else if n =? 10 then String backslash (String "n" rest)
  else if n =? 12 then String backslash (String "f" rest)
  else if n =? 13 then String backslash (String "r" rest)
  else if n <? 32 then String backslash (String "u" (String "0" (String "0" (hexbyte n rest))))
  else String c rest.

Fixpoint escape (s : string) : string :=
  match s with
  | EmptyString => EmptyString
  | String c s' => escape_char c (escape s')
  end.

Definition quote (s : string) : string :=
  String dquote (escape s +:+ String dquote EmptyString).

(** [JSON.stringify] of a property value; [None] for [undefined], whose
    property is left out of the enclosing object. *)
Definition stringify_value (v : value) : option string :=
  match v with
  | VUndef => None
  | VStr s => Some (quote s)
  | _ => Some (toString v)
  end.

(** An object in enumeration order (the order of [Object.keys]). *)
Definition object : Type := list (string * value).

Fixpoint members (o : object) : list string :=
  match o with
  | [] => []
  | (k, v) :: o' =>
      match stringify_value v with
      | Some t => (quote k +:+ ":" +:+ t) :: members o'
      | None => members o'
      end
  end.

Fixpoint join (sep : string) (l : list string) : string :=
  match l with
  | [] => EmptyString
  | [x] => x
  | x :: l' => x +:+ sep +:+ join sep l'
  end.

Definition stringify (o : object) : string :=
  "{" +:+ join "," (members o) +:+ "}".

End Json.

(** ** MD5 (RFC 1321), the digest behind [crypto.createHash('md5')] *)

Module Md5.

Definition wrap (x : Z) : Z := x mod 2 ^ 32.
Definition add32 (x y : Z) : Z := wrap (x + y).
Definition not32 (x : Z) : Z := Z.lxor x 0xffffffff.
Definition rotl (x : Z) (n : Z) : Z :=
  Z.lor (wrap (Z.shiftl x n)) (Z.shiftr x (32 - n)).

Definition K : list Z :=
  [ 0xd76aa478; 0xe8c7b756; 0x242070db; 0xc1bdceee; 0xf57c0faf; 0x4787c62a; 0xa8304613; 0xfd469501;
    0x698098d8; 0x8b44f7af; 0xffff5bb1; 0x895cd7be; 0x6b901122; 0xfd987193; 0xa679438e; 0x49b40821;
    0xf61e2562; 0xc040b340; 0x265e5a51; 0xe9b6c7aa; 0xd62f105d; 0x02441453; 0xd8a1e681; 0xe7d3fbc8;
    0x21e1cde6; 0xc33707d6; 0xf4d50d87; 0x455a14ed; 0xa9e3e905; 0xfcefa3f8; 0x676f02d9; 0x8d2a4c8a;
    0xfffa3942; 0x8771f681; 0x6d9d6122; 0xfde5380c; 0xa4beea44; 0x4bdecfa9; 0xf6bb4b60; 0xbebfbc70;
    0x289b7ec6; 0xeaa127fa; 0xd4ef3085; 0x04881d05; 0xd9d4d039; 0xe6db99e5; 0x1fa27cf8; 0xc4ac5665;
    0xf4292244; 0x432aff97; 0xab9423a7; 0xfc93a039; 0x655b59c3; 0x8f0ccc92; 0xffeff47d; 0x85845dd1;
    0x6fa87e4f; 0xfe2ce6e0; 0xa3014314; 0x4e0811a1; 0xf7537e82; 0xbd3af235; 0x2ad7d2bb; 0xeb86d391 ].

Definition S : list Z :=
  [ 7; 12; 17; 22; 7; 12; 17; 22; 7; 12; 17; 22; 7; 12; 17; 22;
    5; 9; 14; 20; 5; 9; 14; 20; 5; 9; 14; 20; 5; 9; 14; 20;
    4; 11; 16; 23; 4; 11; 16; 23; 4; 11; 16; 23; 4; 11; 16; 23;
    6; 10; 15; 21; 6; 10; 15; 21; 6; 10; 15; 21; 6; 10; 15; 21 ].

Record regs : Type := Regs { rA : Z; rB : Z; rC : Z; rD : Z }.

Definition init : regs := Regs 0x67452301 0xefcdab89 0x98badcfe 0x10325476.

(** Little-endian 32-bit word at byte offset [4 * i] of a block. *)
Definition word_at (block : list Z) (i : nat) : Z :=
  let b k := nth (4 * i + k) block 0 in
  b 0%nat + 256 * b 1%nat + 65536 * b 2%nat + 16777216 * b 3%nat.

Definition round (block : list Z) (r : regs) (i : nat) : regs :=
  let '(Regs a b c d) := r in
  let zi := Z.of_nat i in
  let '(f, g) :=
    if zi <? 16 then (Z.lor (Z.land b c) (Z.land (not32 b) d), zi)
    else if zi <? 32 then (Z.lor (Z.land d b) (Z.land (not32 d) c), (5 * zi + 1) mod 16)
    else if zi <? 48 then (Z.lxor (Z.lxor b c) d, (3 * zi + 5) mod 16)
    else (Z.lxor c (Z.lor b (not32 d)), (7 * zi) mod 16) in
  let f' := add32 (add32 (add32 f a) (nth i K 0)) (word_at block (Z.to_nat g)) in
  Regs d (add32 b (rotl f' (nth i S 0))) b c.

Definition compress (r : regs) (block : list Z) : regs :=
  let r' := fold_left (round block) (seq 0 64) r in
  Regs (add32 (rA r) (rA r')) (add32 (rB r) (rB r'))
       (add32 (rC r) (rC r')) (add32 (rD r) (rD r')).

Fixpoint blocks (n : nat) (bytes : list Z) (r : regs) : regs :=
  match n with
  | O => r
  | Datatypes.S n' => blocks n' (skipn 64 bytes) (compress r (firstn 64 bytes))
  end.

(** [n] as [k] little-endian bytes. *)
Fixpoint le_bytes (k : nat) (n : Z) : list Z :=
  match k with
  | O => []
  | Datatypes.S k' => n mod 256 :: le_bytes k' (n / 256)
  end.

Definition pad (bytes : list Z) : list Z :=
  let len := Z.of_nat (length bytes) in
  let zeros := Z.to_nat ((55 - len) mod 64) in
  bytes ++ [0x80] ++ repeat 0 zeros ++ le_bytes 8 ((8 * len) mod 2 ^ 64).

Definition digest (bytes : list Z) : list Z :=
  let p := pad bytes in
  let r := blocks (length p / 64) p init in
  le_bytes 4 (rA r) ++ le_bytes 4 (rB r) ++ le_bytes 4 (rC r) ++ le_bytes 4 (rD r).

Definition bytes_of_string (s : string) : list Z :=
  map (fun c => Z.of_nat (nat_of_ascii c)) (list_ascii_of_string s).

Fixpoint hex (bytes : list Z) : string :=
  match bytes with
  | [] => EmptyString
  | b :: bs => Json.hexbyte b (hex bs)
  end.

(** [crypto.createHash('md5').update(s).digest('hex')] *)
Definition md5_hex (s : string) : string := hex (digest (bytes_of_string s)).

End Md5.

(** ** The cache key *)

(** [makeCacheKeyUsingOptions(key, options)]; [None] is a call without an
    option bag ([undefined]). *)
Definition makeCacheKeyUsingOptions (key : string) (options : option Json.object) : string :=
  match options with
  | Some o =>
      if (0 <? length o)%nat
      then key +:+ "+" +:+ Md5.md5_hex (Json.stringify o)
      else key
  | None => key
  end.

(** ** Promises, by the way they settle *)

Inductive settled (A : Type) : Type :=
| Fulfilled (a : A)
| Rejected (reason : string)
| Pending.
Arguments Fulfilled {A} a.
Arguments Rejected {A} reason.
Arguments Pending {A}.

(** ** The remote queries *)

Import Json.

(** A parsed feedback state, a layer play-state record: objects with string
    keys. *)
Abbreviation record := (gmap string value).

(** [let s = playStates[key]; if (s == undefined || !s.hasOwnProperty('playState'))
    s = { playState: "unknown" }], then [s.playState]. *)
Definition playStateOf (playStates : gmap string record) (queryKey : value) : value :=
  match playStates !! toString queryKey with
  | Some s =>
      match s !! "playState"%string with
      | Some p => p
      | None => VStr "unknown"
      end
  | None => VStr "unknown"
  end.

(** The [overlayQueryKey] block of [queryFeedbackState]. *)
Definition resolveOverlay (playStates : gmap string record) (value : record) : record :=
  match value !! "overlayQueryKey"%string with
  | Some queryKey =>
      let s := playStateOf playStates queryKey in
      let value1 :=
        match value !! "overlayImageName_running"%string with
        | Some running =>
            delete "overlayImageName_running"%string
              (if decide (s = VStr "running")
               then <["overlayImageName"%string := running]> value else value)
        | None => value
        end in
      let value2 :=
        match value1 !! "overlayImageName_paused"%string with
        | Some paused =>
            delete "overlayImageName_paused"%string
              (if decide (s = VStr "paused")
               then <["overlayImageName"%string := paused]> value1 else value1)
        | None => value1
        end in
      delete "overlayQueryKey"%string value2
  | None => value
  end.

(** The [pngQueryKey] block of [queryFeedbackState]. In the running case the
    source assigns [value.png_running] to itself. *)
Definition resolvePng (playStates : gmap string record) (value : record) : record :=
  match value !! "pngQueryKey"%string with
  | Some queryKey =>
      let s := playStateOf playStates queryKey in
      let value1 :=
        match value !! "png_running"%string with
        | Some running =>
            delete "png_running"%string
              (if decide (s = VStr "running")
               then <["png_running"%string := running]> value else value)
        | None => value
        end in
      let value2 :=
        match value1 !! "png_paused"%string with
        | Some paused =>
            delete "png_paused"%string
              (if decide (s = VStr "paused")
               then <["png"%string := paused]> value1 else value1)
        | None => value1
        end in
      delete "pngQueryKey"%string value2
  | None => value
  end.

(** The state-resolution step: what [queryFeedbackState] resolves with once
    the reply is parsed and the layer play states have arrived. *)
Definition resolveState (playStates : gmap string record) (value : record) : record :=
  resolvePng playStates (resolveOverlay playStates value).

(** [queryFeedbackState]: [parsed] is [JSON.parse(reply)], [None] when it
    throws. *)
Definition queryFeedbackState (parsed : option record) (playStates : gmap string record)
  : settled record :=
  match parsed with
  | Some value => Fulfilled (resolveState playStates value)
  | None => Rejected "Bogus response"
  end.

(** [queryFeedbackDetails], from the settlement of [queryFeedbackState] on.
    [images] is [this.images] ([None] until the image set has arrived);
    [sharp base overlay] is the compositing pipeline
    [sharp(base).composite([...]).toBuffer()] on the two base64 payloads,
    [None] when its promise rejects.  A [TypeError] thrown inside the [then]
    callback, and a rejected [queryFeedbackState] (the [then] has no rejection
    handler), leave the returned promise unsettled. *)
Definition queryFeedbackDetails (images : option (gmap string string))
    (sharp : string -> string -> option string) (state : settled record) : settled record :=
  match state with
  | Fulfilled state =>
      match state !! "overlayImageName"%string with
      | Some name =>
          match images with
          | Some imgs =>
              let layerImageData := imgs !! toString name in
              let state := delete "layerImageName"%string state in
              match layerImageData with
              | Some overlay =>
                  if String.eqb overlay EmptyString then Fulfilled state
                  else
                    match state !! "png64"%string with
                    | Some (VStr base) =>
                        match sharp base overlay with
                        | Some buffer => Fulfilled (<["png64"%string := VStr buffer]> state)
                        | None => Fulfilled state
                        end
                    | Some _ => Pending
                    | None => Fulfilled (<["png64"%string := VUndef]> state)
                    end
              | None => Fulfilled state
              end
          | None => Pending
          end
      | None =>
          match state !! "imageName"%string with
          | Some name =>
              match images with
              | Some imgs =>
                  let png64 := match imgs !! toString name with
                               | Some data => VStr data
                               | None => VUndef
                               end in
                  Fulfilled (delete "imageName"%string (<["png64"%string := png64]> state))
              | None => Pending
              end
          | None => Fulfilled state
          end
      end
  | Rejected _ => Pending
  | Pending => Pending
  end.

(** ** The module instance and the event loop *)

(** An entry of [this.cacheMisses]: [{ id, options }]. *)
Record miss : Type := Miss { miss_id : string; miss_options : option object }.

(** A call [this.queryFeedbackDetails(actorId, feedbackId, miss.options)]
    issued by the rebuilder, together with the promise wrapped around it. *)
Record query : Type :=
  Query { q_actorId : string; q_feedbackId : string; q_options : option object }.

(** The two callbacks handed to [setInterval]. *)
Inductive callback : Type :=
| Reconnect      (* () => self.initQWebChannel() *)
| RebuildCache.  (* () => self.rebuildFeedbackCache() *)

#[export] Instance callback_eq_dec : EqDecision callback.
Proof. solve_decision. Defined.

(** A live interval of the event loop. *)
Record timer : Type := Timer { timer_id : nat; timer_period : Z; timer_action : callback }.

(** Calls made to the host. *)
Inductive hostcall : Type :=
| Status (message : string)
| CheckFeedbacks (type : option string).

Record bridge : Type := Bridge {
  localFeedbackCache : gmap string record;       (* this.localFeedbackCache *)
  pendingFeedbackChanges : gmap string string;   (* this.pendingFeedbackChanges *)
  cacheMisses : list miss;                       (* this.cacheMisses, oldest first *)
  images : option (gmap string string);          (* this.images *)
  this_cacheBuilder : option nat;                (* this.cacheBuilder *)
  connectionWatchdog : option nat;               (* module-level connectionWatchdog *)
  cacheBuilder : option nat;                     (* module-level cacheBuilder *)
  timers : list timer;                           (* live intervals *)
  nextTimer : nat;                               (* next fresh timer handle *)
  sockets : nat;                                 (* sockets created so far *)
  host : list hostcall                           (* host calls, oldest first *)
}.

Definition with_cache (f : gmap string record -> gmap string record) (w : bridge) : bridge :=
  Bridge (f (localFeedbackCache w)) (pendingFeedbackChanges w) (cacheMisses w) (images w)
    (this_cacheBuilder w) (connectionWatchdog w) (cacheBuilder w) (timers w) (nextTimer w)
    (sockets w) (host w).

Definition with_pending (f : gmap string string -> gmap string string) (w : bridge) : bridge :=
  Bridge (localFeedbackCache w) (f (pendingFeedbackChanges w)) (cacheMisses w) (images w)
    (this_cacheBuilder w) (connectionWatchdog w) (cacheBuilder w) (timers w) (nextTimer w)
    (sockets w) (host w).

Definition with_misses (f : list miss -> list miss) (w : bridge) : bridge :=
  Bridge (localFeedbackCache w) (pendingFeedbackChanges w) (f (cacheMisses w)) (images w)
    (this_cacheBuilder w) (connectionWatchdog w) (cacheBuilder w) (timers w) (nextTimer w)
    (sockets w) (host w).

Definition with_images (i : option (gmap string string)) (w : bridge) : bridge :=
  Bridge (localFeedbackCache w) (pendingFeedbackChanges w) (cacheMisses w) i
    (this_cacheBuilder w) (connectionWatchdog w) (cacheBuilder w) (timers w) (nextTimer w)
    (sockets w) (host w).

Definition with_this_cacheBuilder (t : option nat) (w : bridge) : bridge :=
  Bridge (localFeedbackCache w) (pendingFeedbackChanges w) (cacheMisses w) (images w)
    t (connectionWatchdog w) (cacheBuilder w) (timers w) (nextTimer w)
    (sockets w) (host w).

Definition with_connectionWatchdog (t : option nat) (w : bridge) : bridge :=
  Bridge (localFeedbackCache w) (pendingFeedbackChanges w) (cacheMisses w) (images w)
    (this_cacheBuilder w) t (cacheBuilder w) (timers w) (nextTimer w)
    (sockets w) (host w).

Definition with_cacheBuilder (t : option nat) (w : bridge) : bridge :=
  Bridge (localFeedbackCache w) (pendingFeedbackChanges w) (cacheMisses w) (images w)
    (this_cacheBuilder w) (connectionWatchdog w) t (timers w) (nextTimer w)
    (sockets w) (host w).

Definition with_timers (f : list timer -> list timer) (n : nat) (w : bridge) : bridge :=
  Bridge (localFeedbackCache w) (pendingFeedbackChanges w) (cacheMisses w) (images w)
    (this_cacheBuilder w) (connectionWatchdog w) (cacheBuilder w) (f (timers w)) n
    (sockets w) (host w).

Definition with_sockets (n : nat) (w : bridge) : bridge :=
  Bridge (localFeedbackCache w) (pendingFeedbackChanges w) (cacheMisses w) (images w)
    (this_cacheBuilder w) (connectionWatchdog w) (cacheBuilder w) (timers w) (nextTimer w)
    n (host w).

Definition call_host (c : hostcall) (w : bridge) : bridge :=
  Bridge (localFeedbackCache w) (pendingFeedbackChanges w) (cacheMisses w) (images w)
    (this_cacheBuilder w) (connectionWatchdog w) (cacheBuilder w) (timers w) (nextTimer w)
    (sockets w) (host w ++ [c]).

(** [setInterval(cb, ms)]: a new live interval; returns its handle. *)
Definition setInterval (cb : callback) (ms : Z) (w : bridge) : nat * bridge :=
  (nextTimer w,
   with_timers (fun ts => ts ++ [Timer (nextTimer w) ms cb]) (Datatypes.S (nextTimer w)) w).

(** [clearTimeout(handle)]; Node clears an interval through it as well. *)
Definition clearTimeout (handle : nat) (w : bridge) : bridge :=
  with_timers (filter (fun t => timer_id t <> handle)) (nextTimer w) w.

(** [`${actorId}~${feedbackId}`] *)
Definition feedbackKey (actorId feedbackId : string) : string :=
  actorId +:+ "~" +:+ feedbackId.

(** [s.split(sep)] for a one-character separator. *)
Fixpoint split (sep : ascii) (s : string) : list string :=
  match s with
  | EmptyString => [EmptyString]
  | String c s' =>
      if Ascii.eqb c sep then EmptyString :: split sep s'
      else
        match split sep s' with
        | h :: t => String c h :: t
        | [] => [String c EmptyString]
        end
  end.

(** The constructor: empty cache, pending set and miss queue; [this.images]
    not yet assigned; [initQWebChannel] has opened the first socket. *)
Definition initial : bridge :=
  Bridge ∅ ∅ [] None None None None [] 0%nat 1%nat [].

(** [initQWebChannel]: one more socket ([ip] and [port] always have a
    default). *)
Definition initQWebChannel (w : bridge) : bridge :=
  with_sockets (Datatypes.S (sockets w)) w.

(** [socket.on('open')], up to the channel handshake. *)
Definition onOpen (w : bridge) : bridge :=
  match connectionWatchdog w with
  | Some handle => with_connectionWatchdog None (clearTimeout handle w)
  | None => w
  end.

(** [socket.on('error')] only logs. *)
Definition onError (w : bridge) : bridge := w.

(** [socket.on('close')] *)
Definition onClose (w : bridge) : bridge :=
  match connectionWatchdog w with
  | None =>
      let '(handle, w1) := setInterval Reconnect 5000 (call_host (Status "Disconnected") w) in
      with_connectionWatchdog (Some handle) w1
  | Some _ => w
  end.

(** The reply to [scheduler.getImageSet]: [this.images = {}] and
    [Object.assign(this.images, reply)]. *)
Definition onImageSet (reply : gmap string string) (w : bridge) : bridge :=
  with_images (Some reply) w.

(** The feedback-change push handler. *)
Definition handleFeedbackChangeEvent (actorId feedbackId : string) (w : bridge) : bridge :=
  let key := feedbackKey actorId feedbackId in
  call_host (CheckFeedbacks (Some key))
    (with_pending (fun p => <[key := "stale"%string]> p) w).

(** The cache-hit branch of [feedback] up to the stale check: a bare
    [imageName] is resolved against the image set on a copy of the entry.
    [None] is the [TypeError] of indexing an unassigned [this.images]. *)
Definition processResult (images : option (gmap string string)) (result : record)
  : option record :=
  match result !! "imageName"%string with
  | Some name =>
      match images with
      | Some imgs =>
          let processedResult := delete "imageName"%string result in
          match imgs !! toString name with
          | Some imageData => Some (<["png64"%string := VStr imageData]> processedResult)
          | None => Some processedResult
          end
      | None => None
      end
  | None => Some result
  end.

(** The tail of [feedback]: with a non-empty queue, clear the interval held
    in [this.cacheBuilder], if any, and start a new one whose handle goes to
    the module-level [cacheBuilder]. *)
Definition armCacheBuilder (w : bridge) : bridge :=
  match cacheMisses w with
  | [] => w
  | _ :: _ =>
      let w1 :=
        match this_cacheBuilder w with
        | Some handle => with_this_cacheBuilder None (clearTimeout handle w)
        | None => w
        end in
      let '(handle, w2) := setInterval RebuildCache 500 w1 in
      with_cacheBuilder (Some handle) w2
  end.

Definition pushMiss (type : string) (options : option object) (w : bridge) : bridge :=
  with_misses (fun ms => ms ++ [Miss type options]) w.

(** [feedback(event)] with [event.type] and [event.options]: the returned
    value ([None] for [undefined]) and the new state; the outer [None] is a
    thrown [TypeError]. *)
Definition feedback (type : string) (options : option object) (w : bridge)
  : option (option record * bridge) :=
  let cacheKey := makeCacheKeyUsingOptions type options in
  match localFeedbackCache w !! cacheKey with
  | Some result =>
      match processResult (images w) result with
      | Some result' =>
          let w1 :=
            match pendingFeedbackChanges w !! type with
            | Some marker =>
                if String.eqb marker EmptyString then w else pushMiss type options w
            | None => w
            end in
          Some (Some result', armCacheBuilder w1)
      | None => None
      end
  | None => Some (None, armCacheBuilder (pushMiss type options w))
  end.

(** The [while] loop of [rebuildFeedbackCache] over the queue seen from its
    popping end: the pending set after the deletions and the queries issued,
    in the order their promises are pushed. The guard
    [if (!miss.id === undefined) continue] compares a boolean with
    [undefined] and never skips. *)
Fixpoint drain (stack : list miss) (pending : gmap string string)
  : gmap string string * list query :=
  match stack with
  | [] => (pending, [])
  | m :: rest =>
      let pending1 := delete (miss_id m) pending in
      let components := split "~" (miss_id m) in
      let '(pending2, promises) := drain rest pending1 in
      if (2 <=? length components)%nat
      then (pending2,
            Query (nth 0 components EmptyString) (nth 1 components EmptyString)
              (miss_options m) :: promises)
      else (pending2, promises)
  end.

(** [rebuildFeedbackCache], its synchronous part: the queue is emptied, the
    queries are issued, [this.cacheBuilder] is reset. No timer is cleared. *)
Definition rebuildFeedbackCache (w : bridge) : bridge * list query :=
  let '(pending, promises) := drain (rev (cacheMisses w)) (pendingFeedbackChanges w) in
  (with_this_cacheBuilder None
     (with_pending (fun _ => pending) (with_misses (fun _ => []) w)),
   promises).

(** Settlement of the promise wrapped around one detail query:
    [.then(reply => { cache[cacheKey] = reply; resolve() })
     .catch(error => resolve())]. *)
Definition settleMiss (q : query) (details : settled record) (w : bridge)
  : bridge * settled unit :=
  match details with
  | Fulfilled reply =>
      let cacheKey :=
        makeCacheKeyUsingOptions (feedbackKey (q_actorId q) (q_feedbackId q)) (q_options q) in
      (with_cache (fun c => <[cacheKey := reply]> c) w, Fulfilled tt)
  | Rejected _ => (w, Fulfilled tt)
  | Pending => (w, Pending)
  end.

(** The promises of one pass settling, in the given order; once all have
    settled, [Promise.allSettled(...).then] asks the host to re-evaluate
    every feedback. *)
Fixpoint settlePass (answers : list (query * settled record)) (w : bridge)
  : bridge * bool :=
  match answers with
  | [] => (w, true)
  | (q, details) :: rest =>
      let '(w1, p) := settleMiss q details w in
      let '(w2, all) := settlePass rest w1 in
      (w2, match p with Pending => false | _ => all end)
  end.

Definition allSettled (answers : list (query * settled record)) (w : bridge) : bridge :=
  let '(w1, all) := settlePass answers w in
  match answers with
  | [] => w1
  | _ :: _ => if all then call_host (CheckFeedbacks None) w1 else w1
  end.

(** An interval firing: its callback runs, the interval stays live. [None]
    when no live interval has this handle. *)
Definition tick (handle : nat) (w : bridge) : option (bridge * list query) :=
  match find (fun t => Nat.eqb (timer_id t) handle) (timers w) with
  | Some t =>
      match timer_action t with
      | Reconnect => Some (initQWebChannel w, [])
      | RebuildCache => Some (rebuildFeedbackCache w)
      end
  | None => None
  end.

(** What can happen to the module, one event-loop turn at a time. *)
Inductive event : Type :=
| Poll (type : string) (options : option object)
| FeedbackChanged (actorId feedbackId : string)
| Fire (handle : nat)
| Settled (answers : list (query * settled record))
| ImageSet (reply : gmap string string)
| UpdateConfig
| SocketOpen
| SocketError
| SocketClose.

Definition step (e : event) (w : bridge) : bridge :=
  match e with
  | Poll type options =>
      match feedback type options w with
      | Some (_, w') => w'
      | None => w
      end
  | FeedbackChanged actorId feedbackId => handleFeedbackChangeEvent actorId feedbackId w
  | Fire handle =>
      match tick handle w with
      | Some (w', _) => w'
      | None => w
      end
  | Settled answers => allSettled answers w
  | ImageSet reply => onImageSet reply w
  | UpdateConfig => initQWebChannel w
  | SocketOpen => onOpen w
  | SocketError => onError w
  | SocketClose => onClose w
  end.

(** The states the module can be in: the constructed instance and whatever
    a sequence of events makes of it. *)
Inductive reachable : bridge -> Prop :=
| reachable_initial : reachable initial
| reachable_step e w : reachable w -> reachable (step e w).

(** The live reconnect intervals. *)
Definition reconnectTimers (w : bridge) : list timer :=
  filter (fun t => timer_action t = Reconnect) (timers w).

(** The live rebuilder intervals. *)
Definition rebuildTimers (w : bridge) : list timer :=
  filter (fun t => timer_action t = RebuildCache) (timers w).

(** Two option bags with the same two pairs, entered in opposite orders. *)
Definition options_ab : object := [("a", VStr "1"); ("b", VStr "2")]%string.
Definition options_ba : object := [("b", VStr "2"); ("a", VStr "1")]%string.

(** A connected instance whose cache holds an entry for [actor1~fb1]. *)
Definition title_entry : record := {[ "text"%string := VStr "On Air" ]}.
Definition warm : bridge :=
  onImageSet ∅ (with_cache (fun c => <["actor1~fb1"%string := title_entry]> c) initial).

(** A parsed state with a play/pause-conditional [png] pair, and layer play
    states in which its layer is running. *)
Definition png_state : record :=
  {[ "pngQueryKey"%string := VStr "layer1";
     "png_running"%string := VStr "cnVubmluZw==";
     "png_paused"%string := VStr "cGF1c2Vk" ]}.
Definition overlay_state : record :=
  {[ "overlayQueryKey"%string := VStr "layer1";
     "overlayImageName_running"%string := VStr "glow1";
     "overlayImageName_paused"%string := VStr "glow2" ]}.
Definition layer1_running : gmap string record :=
  {[ "layer1"%string := {[ "playState"%string := VStr "running" ]} ]}.

(** The two play/pause-conditional field families of a state record. *)
Inductive conditional : Type := OverlayImageName | Png.

Definition queryKeyField (c : conditional) : string :=
  match c with OverlayImageName => "overlayQueryKey" | Png => "pngQueryKey" end.
Definition runningField (c : conditional) : string :=
  match c with OverlayImageName => "overlayImageName_running" | Png => "png_running" end.
Definition pausedField (c : conditional) : string :=
  match c with OverlayImageName => "overlayImageName_paused" | Png => "png_paused" end.
Definition plainField (c : conditional) : string :=
  match c with OverlayImageName => "overlayImageName" | Png => "png" end.

(** The layer play-state mapping has no record under the query key, or a
    record without a [playState] field. *)
Definition noPlayState (playStates : gmap string record) (queryKey : value) : Prop :=
  forall s, playStates !! toString queryKey = Some s -> s !! "playState"%string = None.

(** A state naming an overlay image next to an embedded base image, an image
    set that has the overlay, and a compositing pipeline that always
    rejects. *)
Definition glow_state : record :=
  {[ "overlayImageName"%string := VStr "glow1"; "png64"%string := VStr "YmFzZQ==" ]}.
Definition glow_images : gmap string string := {[ "glow1"%string := "Z2xvdw=="%string ]}.
Definition sharp_rejects (base overlay : string) : option string := None.

(** [s.includes(c)] for a character [c]. *)
Fixpoint includes (c : ascii) (s : string) : bool :=
  match s with
  | EmptyString => false
  | String c' s' => Ascii.eqb c' c || includes c s'
  end.

(** The query the rebuilder issues for one dequeued miss, if any. *)
Definition issuedFor (m : miss) : list query :=
  let components := split "~" (miss_id m) in
  if (2 <=? length components)%nat
  then [Query (nth 0 components EmptyString) (nth 1 components EmptyString) (miss_options m)]
  else [].

(** The discipline of the reconnect watchdog: [this.cacheBuilder] is never
    assigned a handle, handles are fresh and unique, and the module-level
    [connectionWatchdog] names the one live reconnect interval, if any. *)
Record watchdog_inv (w : bridge) : Prop := WatchdogInv {
  inv_this : this_cacheBuilder w = None;
  inv_fresh : forall t, t ∈ timers w -> (timer_id t < nextTimer w)%nat;
  inv_nodup : NoDup (timer_id <$> timers w);
  inv_armed :
    match connectionWatchdog w with
    | Some handle => reconnectTimers w = [Timer handle 5000 Reconnect]
    | None => reconnectTimers w = []
    end
}.

(** A queue holding a miss whose id has no [~] between two well-formed
    ones. *)
Definition bogus_miss : miss := Miss "bogus" None.
Definition mixed_queue : bridge :=
  with_misses
    (fun _ => [Miss "actor1~fb1" (Some []); bogus_miss; Miss "actor2~fb2" None]) initial.

(** ** Further operations of the module *)

(** [s.startsWith(prefix)] *)
Fixpoint startsWith (s prefix : string) {struct prefix} : bool :=
  match prefix with
  | EmptyString => true
  | String p prefix' =>
      match s with
      | EmptyString => false
      | String c s' => Ascii.eqb c p && startsWith s' prefix'
      end
  end.


(** [removeAllKeysWithPrefix(prefix)]: every cache key that starts with
    [prefix] is deleted. *)
Definition removeAllKeysWithPrefix (prefix : string) (w : bridge) : bridge :=
  with_cache (filter (fun entry => startsWith entry.1 prefix = false)) w.

(** The fields the state-resolution step reads or writes. *)
Definition conditionalFields : list string :=
  ["overlayQueryKey"; "overlayImageName_running"; "overlayImageName_paused";
   "overlayImageName"; "pngQueryKey"; "png_running"; "png_paused"; "png"]%string.

(** [requestCompanionDefinition(kind)], from the reply of
    [scheduler._cmp_v1_query] on, the reply being an object: the promise
    resolves with the field of the reply that belongs to the kind ([None]
    when the reply lacks it) and rejects for any other kind. *)
Definition requestCompanionDefinition {A : Type} (kind : string) (reply : gmap string A)
  : settled (option A) :=
  if String.eqb kind "actions" then Fulfilled (reply !! "companion_actions"%string)
  else if String.eqb kind "presets" then Fulfilled (reply !! "companion_presets"%string)
  else if String.eqb kind "feedbacks" then Fulfilled (reply !! "companion_feedbacks"%string)
  else if String.eqb kind "lastUpdateTimestamp"
       then Fulfilled (reply !! "lastUpdateTimestamp"%string)
  else Rejected "Type not supported".

(** [debounce(func, timeout)]: the closure variable [timer], the timeouts
    that are still to fire with the arguments they will pass on, the next
    fresh handle, and the arguments [func] has been applied to so far. The
    delay itself is not part of the state: a timeout fires when the event
    loop says so. *)
Record debounced (A : Type) : Type := Debounced {
  db_timer : option nat;
  db_live : list (nat * A);
  db_next : nat;
  db_applied : list A
}.
Arguments Debounced {A}.
Arguments db_timer {A}.
Arguments db_live {A}.
Arguments db_next {A}.
Arguments db_applied {A}.

(** The closure right after [debounce(func)]: [timer] is undefined. *)
Definition debounce {A : Type} : debounced A := Debounced None [] 0%nat [].

(** A call of the debounced function: [clearTimeout(timer)], then
    [timer = setTimeout(() => func.apply(this, args), timeout)]. *)
Definition debounce_call {A : Type} (args : A) (d : debounced A) : debounced A :=
  let live :=
    match db_timer d with
    | Some handle => filter (fun t => t.1 <> handle) (db_live d)
    | None => db_live d
    end in
  Debounced (Some (db_next d)) (live ++ [(db_next d, args)]) (S (db_next d)) (db_applied d).

(** A timeout firing: it is gone from the event loop and [func] is applied. *)
Definition debounce_fire {A : Type} (handle : nat) (d : debounced A) : debounced A :=
  match find (fun t => Nat.eqb t.1 handle) (db_live d) with
  | Some (_, args) =>
      Debounced (db_timer d) (filter (fun t => t.1 <> handle) (db_live d)) (db_next d)
        (db_applied d ++ [args])
  | None => d
  end.

(** What happens to a debounced function: it is called, or one of its
    timeouts fires. *)
Inductive debounce_event (A : Type) : Type :=
| DbCall (args : A)
| DbFire (handle : nat).
Arguments DbCall {A}.
Arguments DbFire {A}.

Definition debounce_step {A : Type} (d : debounced A) (e : debounce_event A) : debounced A :=
  match e with
  | DbCall args => debounce_call args d
  | DbFire handle => debounce_fire handle d
  end.

(** The closure after a history of calls and firings. *)
Definition debounce_run {A : Type} (es : list (debounce_event A)) : debounced A :=
  fold_left debounce_step es debounce.

(** Sample data for the examples below. *)
Definition undefined_options : object := [("a", VUndef); ("b", VUndef)]%string.
Definition logo_images : gmap string string := {[ "logo"%string := "bG9nbw=="%string ]}.
Definition bare_state : record :=
  {[ "png_running"%string := VStr "cnVubmluZw=="; "text"%string := VStr "On Air" ]}.
Definition layer1_done : gmap string record :=
  {[ "layer1"%string := {[ "playState"%string := VStr "done" ]} ]}.
Definition sharp_fixed (base overlay : string) : option string := Some "Y29tcG9zaXRl"%string.
Definition both_names_state : record :=
  {[ "overlayImageName"%string := VStr "missing"; "imageName"%string := VStr "logo" ]}.

(** * Properties *)

(** ** The digest agrees with the RFC 1321 test suite *)

Example md5_empty : Md5.md5_hex EmptyString = "d41d8cd98f00b204e9800998ecf8427e"%string.
Proof. vm_compute. reflexivity. Qed.

Example md5_abc : Md5.md5_hex "abc" = "900150983cd24fb0d6963f7d28e17f72"%string.
Proof. vm_compute. reflexivity. Qed.

Example md5_long :
  Md5.md5_hex "12345678901234567890123456789012345678901234567890123456789012345678901234567890"
  = "57edf4a22be3c955ac49da2e2107b67a"%string.
Proof. vm_compute. reflexivity. Qed.

Example key_ab :
  makeCacheKeyUsingOptions "actor1~fb1" (Some [("a", Json.VStr "1"); ("b", Json.VStr "2")]%string)
  = "actor1~fb1+8018d630c38e45a64531824279891103"%string.
Proof. vm_compute. reflexivity. Qed.

Example key_ba :
  makeCacheKeyUsingOptions "actor1~fb1" (Some options_ba)
  = "actor1~fb1+2c3bbb56f0942cebf72878cf29c9527c"%string.
Proof. vm_compute. reflexivity. Qed.

(** [JSON.stringify] prints in enumeration order, escapes quotes and leaves
    out properties that hold [undefined]. *)
Example stringify_sample :
  Json.stringify
    [("s", VStr (String Json.dquote "x")); ("u", VUndef); ("n", VNum (-12));
     ("b", VBool true); ("z", VNull)]%string
  = ("{" +:+ Json.quote "s" +:+ ":" +:+ String Json.dquote (String Json.backslash
       (String Json.dquote ("x" +:+ String Json.dquote EmptyString)))
     +:+ "," +:+ Json.quote "n" +:+ ":-12," +:+ Json.quote "b" +:+ ":true,"
     +:+ Json.quote "z" +:+ ":null}")%string.
Proof. vm_compute. reflexivity. Qed.

(** ** Fingerprints *)

(** C3: the fingerprint of a key with an empty option bag is the key itself,
    with no hash suffix; the same holds for a call without an option bag. *)
Theorem fingerprint_empty_options (key : string) :
  makeCacheKeyUsingOptions key (Some []) = key
  /\ makeCacheKeyUsingOptions key None = key.
Proof. split; reflexivity. Qed.

(** C2, as stated, fails: [options_ab] and [options_ba] hold the same pairs,
    yet [JSON.stringify] prints them in enumeration order and the two digests
    differ. *)
Lemma fingerprint_depends_on_order :
  options_ab ≡ₚ options_ba
  /\ makeCacheKeyUsingOptions "actor1~fb1" (Some options_ab)
     <> makeCacheKeyUsingOptions "actor1~fb1" (Some options_ba).
Proof.
  split.
  - apply perm_swap.
  - vm_compute. discriminate.
Qed.

(** An object is determined by its pairs once the order of its keys is
    fixed: property names are unique. *)
Lemma object_eq_of_pairs_and_order (o1 o2 : object) :
  NoDup (map fst o1) -> map fst o1 = map fst o2 -> o1 ≡ₚ o2 -> o1 = o2.
Proof.
  revert o2. induction o1 as [|[k v] o1 IH]; intros [|[k' v'] o2] Hnd Hkeys Hperm;
    simpl in *; try discriminate; [reflexivity|].
  injection Hkeys as -> Hkeys.
  apply NoDup_cons in Hnd as [Hk Hnd].
  assert (Hin : (k', v) ∈ (k', v') :: o2) by (rewrite <- Hperm; left).
  apply elem_of_cons in Hin as [Heq | Hin].
  - injection Heq as ->. f_equal.
    apply IH; [assumption | assumption | by apply (inj (cons (k', v')))].
  - exfalso. apply Hk. rewrite Hkeys.
    apply list_elem_of_fmap. exists (k', v). split; [reflexivity | assumption].
Qed.

(** C2, amended: option bags with the same pairs whose keys are enumerated in
    the same order get the same fingerprint. *)
Theorem fingerprint_same_pairs_same_order (key : string) (opts1 opts2 : object) :
  NoDup (map fst opts1) ->
  map fst opts1 = map fst opts2 ->
  opts1 ≡ₚ opts2 ->
  makeCacheKeyUsingOptions key (Some opts1) = makeCacheKeyUsingOptions key (Some opts2).
Proof.
  intros Hnd Hkeys Hperm.
  by rewrite (object_eq_of_pairs_and_order opts1 opts2 Hnd Hkeys Hperm).
Qed.

(** [options_ba] read backwards has the pairs and the key order of
    [options_ab]. *)
Lemma fingerprint_same_pairs_same_order_witness :
  makeCacheKeyUsingOptions "actor1~fb1" (Some options_ab)
  = makeCacheKeyUsingOptions "actor1~fb1" (Some (rev options_ba)).
Proof.
  apply (fingerprint_same_pairs_same_order "actor1~fb1" options_ab (rev options_ba)).
  - apply (bool_decide_unpack _). vm_compute. reflexivity.
  - reflexivity.
  - reflexivity.
Defined.

(** ** Feedback evaluation and the stale marker *)

Lemma armCacheBuilder_cacheMisses (w : bridge) :
  cacheMisses (armCacheBuilder w) = cacheMisses w.
Proof.
  unfold armCacheBuilder. destruct (cacheMisses w) eqn:E; [by rewrite E|].
  destruct (this_cacheBuilder w); simpl; by rewrite E.
Qed.

(** Evaluation in a state that holds a stale marker for the evaluated type:
    the miss is queued whether or not the cache has an entry. *)
Lemma feedback_stale (w : bridge) (type : string) (options : option object) :
  pendingFeedbackChanges w !! type = Some "stale"%string ->
  (images w = None -> forall entry,
     localFeedbackCache w !! makeCacheKeyUsingOptions type options = Some entry ->
     entry !! "imageName"%string = None) ->
  exists w',
    feedback type options w
    = Some (localFeedbackCache w !! makeCacheKeyUsingOptions type options
              ≫= processResult (images w), w')
    /\ cacheMisses w' = cacheMisses w ++ [Miss type options].
Proof.
  intros Hstale Hsafe. unfold feedback. rewrite Hstale.
  destruct (localFeedbackCache w !! makeCacheKeyUsingOptions type options)
    as [result|] eqn:Hhit; simpl.
  - assert (Hp : is_Some (processResult (images w) result)).
    { unfold processResult. destruct (result !! "imageName"%string) eqn:Hname; [|by eexists].
      destruct (images w) as [imgs|] eqn:Himgs.
      - destruct (imgs !! toString v); by eexists.
      - specialize (Hsafe eq_refl result eq_refl). congruence. }
    destruct Hp as [result' Hp]. rewrite Hp.
    eexists. split; [reflexivity|]. by rewrite armCacheBuilder_cacheMisses.
  - eexists. split; [reflexivity|]. by rewrite armCacheBuilder_cacheMisses.
Qed.

(** C1: after a feedback-changed push for the identity [actorId~feedbackId],
    the next evaluation of that identity with any options queues the miss
    [{id, options}], also when the cache holds an entry for the fingerprint
    and its value is returned. *)
Theorem stale_marker_enqueues_miss
    (w : bridge) (actorId feedbackId : string) (options : option object) :
  let type := feedbackKey actorId feedbackId in
  let cacheKey := makeCacheKeyUsingOptions type options in
  (images w = None -> forall entry,
     localFeedbackCache w !! cacheKey = Some entry -> entry !! "imageName"%string = None) ->
  exists w',
    feedback type options (handleFeedbackChangeEvent actorId feedbackId w)
    = Some (localFeedbackCache w !! cacheKey ≫= processResult (images w), w')
    /\ cacheMisses w' = cacheMisses w ++ [Miss type options].
Proof.
  intros type cacheKey Hsafe.
  destruct (feedback_stale (handleFeedbackChangeEvent actorId feedbackId w) type options)
    as [w' [Hf Hm]].
  - simpl. apply lookup_insert_eq.
  - exact Hsafe.
  - exists w'. split; [exact Hf | exact Hm].
Qed.

(** On the connected instance [warm] the cache answers [actor1~fb1]; after the
    push the evaluation returns the entry and queues the miss. *)
Lemma stale_marker_enqueues_miss_witness :
  exists w',
    feedback "actor1~fb1" (Some []) (handleFeedbackChangeEvent "actor1" "fb1" warm)
    = Some (Some title_entry, w')
    /\ cacheMisses w' = [Miss "actor1~fb1" (Some [])].
Proof.
  apply (stale_marker_enqueues_miss warm "actor1" "fb1" (Some [])).
  simpl. discriminate.
Defined.

(** ** The rebuilder interval *)

(** C4 on the code: a fresh instance is polled once for [actor1~fb1]; the
    miss starts interval 0. Its first firing drains the queue, and the
    interval is still live afterwards: [feedback] stored the handle in the
    module-level [cacheBuilder], [rebuildFeedbackCache] looks at
    [this.cacheBuilder] and clears no timer, so the interval fires again on
    the empty queue. *)
Theorem rebuild_interval_survives_drain :
  exists w1 w2 w3,
    feedback "actor1~fb1" (Some []) initial = Some (None, w1)
    /\ cacheMisses w1 = [Miss "actor1~fb1" (Some [])]
    /\ rebuildTimers w1 = [Timer 0 500 RebuildCache]
    /\ tick 0 w1 = Some (w2, [Query "actor1" "fb1" (Some [])])
    /\ cacheMisses w2 = []
    /\ rebuildTimers w2 = [Timer 0 500 RebuildCache]
    /\ tick 0 w2 = Some (w3, [])
    /\ rebuildTimers w3 = [Timer 0 500 RebuildCache].
Proof.
  do 3 eexists. repeat split; vm_compute; reflexivity.
Qed.

(** ** Play-state resolution *)

(** C5 on the code, [png] pair with a running layer: both suffixed fields are
    removed but no [png] field is produced, because the running branch
    assigns [png_running] to itself. *)
Theorem png_running_not_selected :
  playStateOf layer1_running (VStr "layer1") = VStr "running"
  /\ resolveState layer1_running png_state !! "png"%string = None
  /\ resolveState layer1_running png_state !! "png_running"%string = None
  /\ resolveState layer1_running png_state !! "png_paused"%string = None.
Proof. repeat split; vm_compute; reflexivity. Qed.

(** The overlay pair, by contrast, is collapsed as described. *)
Example overlay_running_selected :
  resolveState layer1_running overlay_state
  = {[ "overlayImageName"%string := VStr "glow1" ]}.
Proof. vm_compute. reflexivity. Qed.

Lemma playStateOf_unknown (playStates : gmap string record) (queryKey : Json.value) :
  noPlayState playStates queryKey -> playStateOf playStates queryKey = VStr "unknown".
Proof.
  unfold noPlayState, playStateOf. intros H.
  destruct (playStates !! toString queryKey) as [s|]; [|reflexivity].
  by rewrite (H s eq_refl).
Qed.

Ltac fields_of Hk :=
  repeat (apply elem_of_cons in Hk as [-> | Hk]); [..|by apply elem_of_nil in Hk].

Ltac by_lookup := repeat case_match; simplify_map_eq; try reflexivity; try congruence.

(** Each block of the resolution step leaves the fields of the other alone. *)
Lemma resolveOverlay_png_fields playStates (value : record) (k : string) :
  k ∈ ["pngQueryKey"; "png_running"; "png_paused"; "png"]%string ->
  resolveOverlay playStates value !! k = value !! k.
Proof. intros Hk. unfold resolveOverlay. fields_of Hk; by_lookup. Qed.

Lemma resolvePng_overlay_fields playStates (value : record) (k : string) :
  k ∈ ["overlayQueryKey"; "overlayImageName_running"; "overlayImageName_paused";
       "overlayImageName"]%string ->
  resolvePng playStates value !! k = value !! k.
Proof. intros Hk. unfold resolvePng. fields_of Hk; by_lookup. Qed.

Lemma resolveOverlay_unknown playStates (value : record) (queryKey : Json.value) :
  value !! "overlayQueryKey"%string = Some queryKey ->
  playStateOf playStates queryKey = VStr "unknown" ->
  resolveOverlay playStates value !! "overlayImageName_running"%string = None
  /\ resolveOverlay playStates value !! "overlayImageName_paused"%string = None
  /\ resolveOverlay playStates value !! "overlayImageName"%string
     = value !! "overlayImageName"%string.
Proof.
  intros Hq Hs. unfold resolveOverlay. rewrite Hq, Hs. repeat split; by_lookup.
Qed.

Lemma resolvePng_unknown playStates (value : record) (queryKey : Json.value) :
  value !! "pngQueryKey"%string = Some queryKey ->
  playStateOf playStates queryKey = VStr "unknown" ->
  resolvePng playStates value !! "png_running"%string = None
  /\ resolvePng playStates value !! "png_paused"%string = None
  /\ resolvePng playStates value !! "png"%string = value !! "png"%string.
Proof.
  intros Hq Hs. unfold resolvePng. rewrite Hq, Hs. repeat split; by_lookup.
Qed.

(** The overlay block selects the variant of the current play state. *)
Lemma resolveOverlay_selects playStates (value : record) (queryKey running paused : Json.value) :
  value !! "overlayQueryKey"%string = Some queryKey ->
  value !! "overlayImageName_running"%string = Some running ->
  value !! "overlayImageName_paused"%string = Some paused ->
  (playStateOf playStates queryKey = VStr "running" ->
   resolveOverlay playStates value !! "overlayImageName"%string = Some running)
  /\ (playStateOf playStates queryKey = VStr "paused" ->
      resolveOverlay playStates value !! "overlayImageName"%string = Some paused).
Proof.
  intros Hq Hr Hp. unfold resolveOverlay. rewrite Hq, Hr.
  split; intros Hs; rewrite Hs; by_lookup.
Qed.

(** The png block selects the paused variant only. *)
Lemma resolvePng_selects_paused playStates (value : record) (queryKey paused : Json.value) :
  value !! "pngQueryKey"%string = Some queryKey ->
  value !! "png_paused"%string = Some paused ->
  playStateOf playStates queryKey = VStr "paused" ->
  resolvePng playStates value !! "png"%string = Some paused.
Proof.
  intros Hq Hp Hs. unfold resolvePng. rewrite Hq, Hs. by_lookup.
Qed.

(** C6: when the layer play-state mapping has no record for the state's
    query key, or a record without [playState], the play state counts as
    "unknown": both suffixed fields are removed and the unsuffixed field is
    left as the reply had it. *)
Theorem unknown_play_state_strips_pair
    (c : conditional) (playStates : gmap string record) (value : record) (queryKey : Json.value) :
  value !! queryKeyField c = Some queryKey ->
  noPlayState playStates queryKey ->
  playStateOf playStates queryKey = VStr "unknown"
  /\ queryFeedbackState (Some value) playStates = Fulfilled (resolveState playStates value)
  /\ resolveState playStates value !! runningField c = None
  /\ resolveState playStates value !! pausedField c = None
  /\ resolveState playStates value !! plainField c = value !! plainField c.
Proof.
  intros Hq Hno. pose proof (playStateOf_unknown _ _ Hno) as Hs.
  split; [exact Hs|]. split; [reflexivity|]. unfold resolveState.
  destruct c; simpl in *.
  - rewrite !resolvePng_overlay_fields by set_solver.
    by apply (resolveOverlay_unknown _ _ queryKey).
  - destruct (resolvePng_unknown playStates (resolveOverlay playStates value) queryKey)
      as (Hr & Hp & Hplain); [|exact Hs|].
    + rewrite resolveOverlay_png_fields by set_solver. exact Hq.
    + rewrite Hr, Hp, Hplain. repeat split.
      apply resolveOverlay_png_fields. set_solver.
Qed.

(** The overlay pair of [overlay_state] against an empty play-state mapping. *)
Lemma unknown_play_state_strips_pair_witness :
  playStateOf ∅ (VStr "layer1") = VStr "unknown"
  /\ queryFeedbackState (Some overlay_state) ∅ = Fulfilled (resolveState ∅ overlay_state)
  /\ resolveState ∅ overlay_state !! "overlayImageName_running"%string = None
  /\ resolveState ∅ overlay_state !! "overlayImageName_paused"%string = None
  /\ resolveState ∅ overlay_state !! "overlayImageName"%string
     = overlay_state !! "overlayImageName"%string.
Proof.
  apply (unknown_play_state_strips_pair OverlayImageName ∅ overlay_state (VStr "layer1")).
  - vm_compute. reflexivity.
  - intros s Hs. vm_compute in Hs. discriminate Hs.
Defined.

(** ** Settlement of a detail query *)


(** ** Compositing *)



(** ** Malformed misses *)


Lemma split_nonempty sep s : split sep s <> [].
Proof.
  destruct s as [|c s]; simpl; [discriminate|].
  destruct (Ascii.eqb c sep); [discriminate|].
  destruct (split sep s); discriminate.
Qed.






Lemma drain_issued stack pending : (drain stack pending).2 = flat_map issuedFor stack.
Proof.
  revert pending. induction stack as [|m rest IH]; intros pending; [reflexivity|].
  cbn [drain flat_map]. specialize (IH (delete (miss_id m) pending)).
  destruct (drain rest (delete (miss_id m) pending)) as [p qs]. cbn [snd] in IH.
  unfold issuedFor at 1.
  destruct (2 <=? length (split "~" (miss_id m)))%nat; cbn [snd app]; by rewrite IH.
Qed.

Lemma rebuild_issued w : (rebuildFeedbackCache w).2 = flat_map issuedFor (rev (cacheMisses w)).
Proof.
  unfold rebuildFeedbackCache. rewrite <- (drain_issued _ (pendingFeedbackChanges w)).
  by destruct (drain (rev (cacheMisses w)) (pendingFeedbackChanges w)).
Qed.






Example mixed_queue_queries :
  (rebuildFeedbackCache mixed_queue).2
  = [Query "actor2" "fb2" None; Query "actor1" "fb1" (Some [])].
Proof. vm_compute. reflexivity. Qed.

(** ** The reconnect watchdog *)

Lemma inv_initial : watchdog_inv initial.
Proof. split; simpl; [reflexivity | set_solver | constructor | reflexivity]. Qed.

Lemma inv_setInterval_fresh (w : bridge) (t : timer) cb ms :
  (forall t, t ∈ timers w -> (timer_id t < nextTimer w)%nat) ->
  t ∈ timers w ++ [Timer (nextTimer w) ms cb] -> (timer_id t < Datatypes.S (nextTimer w))%nat.
Proof.
  intros Hfresh Ht. apply elem_of_app in Ht as [Ht | Ht].
  - specialize (Hfresh t Ht). lia.
  - apply list_elem_of_singleton in Ht as ->. simpl. lia.
Qed.

Lemma inv_setInterval_nodup (w : bridge) cb ms :
  (forall t, t ∈ timers w -> (timer_id t < nextTimer w)%nat) ->
  NoDup (timer_id <$> timers w) ->
  NoDup (timer_id <$> timers w ++ [Timer (nextTimer w) ms cb]).
Proof.
  intros Hfresh Hnd. rewrite fmap_app. simpl. apply NoDup_app. split; [exact Hnd|]. split.
  - intros x Hx Hx'. apply list_elem_of_singleton in Hx' as ->.
    apply list_elem_of_fmap in Hx as [t [Hid Ht]]. specialize (Hfresh t Ht). lia.
  - apply NoDup_singleton.
Qed.

Lemma inv_armCacheBuilder w : watchdog_inv w -> watchdog_inv (armCacheBuilder w).
Proof.
  intros [Hthis Hfresh Hnd Harmed]. unfold armCacheBuilder.
  destruct (cacheMisses w); [by split|]. rewrite Hthis. split; simpl.
  - exact Hthis.
  - intros t. by apply inv_setInterval_fresh.
  - by apply inv_setInterval_nodup.
  - unfold reconnectTimers in *. simpl. rewrite filter_app.
    rewrite (filter_cons_False _ (Timer _ _ RebuildCache)) by (simpl; discriminate).
    rewrite filter_nil, app_nil_r. exact Harmed.
Qed.

Lemma inv_same_timers w w' :
  this_cacheBuilder w' = None -> timers w' = timers w -> nextTimer w' = nextTimer w ->
  connectionWatchdog w' = connectionWatchdog w ->
  watchdog_inv w -> watchdog_inv w'.
Proof.
  intros Hthis Ht Hn Hc [_ Hfresh Hnd Harmed].
  split; unfold reconnectTimers in *; rewrite ?Ht, ?Hn, ?Hc; assumption.
Qed.

Lemma inv_feedback type options w r w' :
  watchdog_inv w -> feedback type options w = Some (r, w') -> watchdog_inv w'.
Proof.
  intros Hinv. unfold feedback.
  destruct (localFeedbackCache w !! makeCacheKeyUsingOptions type options) as [result|].
  - destruct (processResult (images w) result); [|discriminate].
    intros [= _ <-]. apply inv_armCacheBuilder.
    destruct (pendingFeedbackChanges w !! type) as [marker|]; [|exact Hinv].
    destruct (String.eqb marker EmptyString); [exact Hinv|].
    by apply (inv_same_timers w); [apply Hinv|..].
  - intros [= _ <-]. apply inv_armCacheBuilder.
    by apply (inv_same_timers w); [apply Hinv|..].
Qed.

Lemma inv_rebuild w : watchdog_inv w -> watchdog_inv (rebuildFeedbackCache w).1.
Proof.
  intros Hinv. unfold rebuildFeedbackCache. destruct (drain _ _) as [p qs].
  by apply (inv_same_timers w).
Qed.

Lemma settlePass_frame answers w :
  this_cacheBuilder (settlePass answers w).1 = this_cacheBuilder w
  /\ timers (settlePass answers w).1 = timers w
  /\ nextTimer (settlePass answers w).1 = nextTimer w
  /\ connectionWatchdog (settlePass answers w).1 = connectionWatchdog w.
Proof.
  revert w. induction answers as [|[q d] rest IH]; intros w; simpl; [done|].
  destruct (settleMiss q d w) as [w1 p] eqn:E1. specialize (IH w1).
  destruct (settlePass rest w1) as [w2 all]. simpl in *.
  assert (this_cacheBuilder w1 = this_cacheBuilder w /\ timers w1 = timers w
          /\ nextTimer w1 = nextTimer w /\ connectionWatchdog w1 = connectionWatchdog w)
    as (H1 & H2 & H3 & H4)
    by (destruct d; simpl in E1; injection E1 as <- _; done).
  destruct IH as (I1 & I2 & I3 & I4). repeat split; congruence.
Qed.

Lemma inv_allSettled answers w : watchdog_inv w -> watchdog_inv (allSettled answers w).
Proof.
  intros Hinv. unfold allSettled. pose proof (settlePass_frame answers w) as H.
  destruct (settlePass answers w) as [w1 all]. simpl in H. destruct H as (H1 & H2 & H3 & H4).
  assert (Hinv1 : watchdog_inv w1)
    by (apply (inv_same_timers w); [rewrite H1; apply Hinv|done..]).
  destruct answers; [assumption|]. destruct all; [|assumption].
  by apply (inv_same_timers w1); [apply Hinv1|..].
Qed.

Lemma NoDup_ids_filter (P : timer -> Prop) `{forall t, Decision (P t)} (l : list timer) :
  NoDup (timer_id <$> l) -> NoDup (timer_id <$> filter P l).
Proof.
  induction l as [|t l IH]; simpl; [done|].
  intros Hnd. apply NoDup_cons in Hnd as [Ht Hnd].
  destruct (decide (P t)).
  - rewrite filter_cons_True by done. simpl. apply NoDup_cons. split; [|by apply IH].
    intros Hin. apply Ht. apply list_elem_of_fmap in Hin as [t' [Hid Hin]].
    apply list_elem_of_filter in Hin as [_ Hin].
    apply list_elem_of_fmap. by exists t'.
  - rewrite filter_cons_False by done. by apply IH.
Qed.

Lemma filter_swap {A} (P Q : A -> Prop)
    `{forall x, Decision (P x)} `{forall x, Decision (Q x)} (l : list A) :
  filter P (filter Q l) = filter Q (filter P l).
Proof. rewrite !list_filter_filter. apply list_filter_iff. tauto. Qed.

Lemma inv_onOpen w : watchdog_inv w -> watchdog_inv (onOpen w).
Proof.
  intros Hinv. pose proof Hinv as [Hthis Hfresh Hnd Harmed]. unfold onOpen.
  destruct (connectionWatchdog w) as [handle|]; [|exact Hinv].
  split; simpl.
  - exact Hthis.
  - intros t Ht. apply list_elem_of_filter in Ht as [_ Ht]. by apply Hfresh.
  - by apply NoDup_ids_filter.
  - unfold reconnectTimers in *. simpl. rewrite filter_swap, Harmed.
    by rewrite filter_cons_False by (simpl; congruence).
Qed.

Lemma inv_onClose w : watchdog_inv w -> watchdog_inv (onClose w).
Proof.
  intros Hinv. pose proof Hinv as [Hthis Hfresh Hnd Harmed]. unfold onClose.
  destruct (connectionWatchdog w) as [handle|]; [exact Hinv|].
  split; simpl.
  - exact Hthis.
  - intros t. by apply inv_setInterval_fresh.
  - by apply inv_setInterval_nodup.
  - unfold reconnectTimers in *. simpl. rewrite filter_app, Harmed. reflexivity.
Qed.

Lemma inv_step e w : watchdog_inv w -> watchdog_inv (step e w).
Proof.
  intros Hinv. destruct e; simpl.
  - destruct (feedback type options w) as [[r w']|] eqn:E; [|exact Hinv].
    by apply (inv_feedback type options w r w').
  - by apply (inv_same_timers w); [apply Hinv|..].
  - unfold tick. destruct (find _ _) as [t|]; [|exact Hinv].
    destruct (timer_action t); simpl.
    + by apply (inv_same_timers w); [apply Hinv|..].
    + by apply inv_rebuild.
  - by apply inv_allSettled.
  - by apply (inv_same_timers w); [apply Hinv|..].
  - by apply (inv_same_timers w); [apply Hinv|..].
  - by apply inv_onOpen.
  - exact Hinv.
  - by apply inv_onClose.
Qed.

Lemma reachable_inv w : reachable w -> watchdog_inv w.
Proof. induction 1; [apply inv_initial | by apply inv_step]. Qed.

Lemma unique_handle (l : list timer) (t1 t2 : timer) :
  NoDup (timer_id <$> l) -> t1 ∈ l -> t2 ∈ l -> timer_id t1 = timer_id t2 -> t1 = t2.
Proof.
  induction l as [|t l IH]; simpl; intros Hnd H1 H2 Hid; [by apply elem_of_nil in H1|].
  apply NoDup_cons in Hnd as [Ht Hnd].
  apply elem_of_cons in H1 as [-> | H1]; apply elem_of_cons in H2 as [-> | H2].
  - reflexivity.
  - exfalso. apply Ht. rewrite Hid. by apply list_elem_of_fmap_2.
  - exfalso. apply Ht. rewrite <- Hid. by apply list_elem_of_fmap_2.
  - by apply IH.
Qed.

Lemma find_armed (w : bridge) (handle : nat) :
  watchdog_inv w -> connectionWatchdog w = Some handle ->
  find (fun t => Nat.eqb (timer_id t) handle) (timers w) = Some (Timer handle 5000 Reconnect).
Proof.
  intros [_ _ Hnd Harmed] Hc. rewrite Hc in Harmed.
  assert (Hin : Timer handle 5000 Reconnect ∈ timers w).
  { assert (H : Timer handle 5000 Reconnect ∈ reconnectTimers w) by (rewrite Harmed; left).
    unfold reconnectTimers in H. by apply list_elem_of_filter in H as [_ H]. }
  destruct (find _ (timers w)) as [t|] eqn:E.
  - apply find_some in E as [Ht Hid]. apply Nat.eqb_eq in Hid.
    apply list_elem_of_In in Ht. f_equal.
    by apply (unique_handle (timers w)).
  - apply list_elem_of_In in Hin. apply (find_none _ _ E) in Hin. simpl in Hin.
    by rewrite Nat.eqb_refl in Hin.
Qed.

(** C9: in every state the module can reach there is at most one live
    reconnect interval. After a close exactly one is armed, with a period of
    5000 ms and its handle in [connectionWatchdog]; a close that finds one
    armed changes nothing; an open clears it; and a firing of the armed
    interval makes exactly one connection attempt and arms nothing. *)
Theorem at_most_one_reconnect_timer (w : bridge) :
  reachable w ->
  (length (reconnectTimers w) <= 1)%nat
  /\ (exists handle,
        connectionWatchdog (onClose w) = Some handle
        /\ reconnectTimers (onClose w) = [Timer handle 5000 Reconnect])
  /\ (connectionWatchdog (onOpen w) = None /\ reconnectTimers (onOpen w) = [])
  /\ (forall handle, connectionWatchdog w = Some handle ->
        onClose w = w
        /\ tick handle w = Some (initQWebChannel w, [])
        /\ sockets (initQWebChannel w) = Datatypes.S (sockets w)
        /\ reconnectTimers (initQWebChannel w) = reconnectTimers w).
Proof.
  intros Hr. pose proof (reachable_inv w Hr) as Hinv.
  pose proof (inv_armed _ (inv_onClose w Hinv)) as Hclose.
  pose proof (inv_armed _ (inv_onOpen w Hinv)) as Hopen.
  pose proof (inv_armed _ Hinv) as Harmed.
  split; [|split; [|split]].
  - destruct (connectionWatchdog w); rewrite Harmed; simpl; lia.
  - unfold onClose in *. destruct (connectionWatchdog w) as [handle|] eqn:Hc.
    + exists handle. by rewrite Hc in *.
    + simpl in *. eexists. split; [reflexivity|]. exact Hclose.
  - unfold onOpen in *. destruct (connectionWatchdog w) as [handle|] eqn:Hc.
    + simpl in *. done.
    + by rewrite Hc in *.
  - intros handle Hc. split; [by unfold onClose; rewrite Hc|].
    unfold tick. rewrite (find_armed w handle Hinv Hc). done.
Qed.

(** The instance after its first socket has closed. *)
Lemma at_most_one_reconnect_timer_witness :
  (length (reconnectTimers (step SocketClose initial)) <= 1)%nat
  /\ (exists handle,
        connectionWatchdog (onClose (step SocketClose initial)) = Some handle
        /\ reconnectTimers (onClose (step SocketClose initial))
           = [Timer handle 5000 Reconnect])
  /\ (connectionWatchdog (onOpen (step SocketClose initial)) = None
      /\ reconnectTimers (onOpen (step SocketClose initial)) = [])
  /\ (forall handle, connectionWatchdog (step SocketClose initial) = Some handle ->
        onClose (step SocketClose initial) = step SocketClose initial
        /\ tick handle (step SocketClose initial)
           = Some (initQWebChannel (step SocketClose initial), [])
        /\ sockets (initQWebChannel (step SocketClose initial))
           = Datatypes.S (sockets (step SocketClose initial))
        /\ reconnectTimers (initQWebChannel (step SocketClose initial))
           = reconnectTimers (step SocketClose initial)).
Proof.
  apply (at_most_one_reconnect_timer (step SocketClose initial)).
  apply reachable_step. apply reachable_initial.
Defined.

Example close_arms_interval_0 :
  reconnectTimers (step SocketClose initial) = [Timer 0 5000 Reconnect]
  /\ reconnectTimers (step SocketClose (step SocketClose initial)) = [Timer 0 5000 Reconnect]
  /\ reconnectTimers (step SocketOpen (step SocketClose initial)) = [].
Proof. repeat split; vm_compute; reflexivity. Qed.

(** * Further properties *)

(** ** Strings, digests and fingerprints *)

Lemma string_app_nil_l (s : string) : EmptyString +:+ s = s.
Proof. reflexivity. Qed.

Lemma string_app_cons (c : ascii) (s t : string) : String c s +:+ t = String c (s +:+ t).
Proof. reflexivity. Qed.

Lemma string_app_nil_r (s : string) : s +:+ EmptyString = s.
Proof. induction s as [|c s IH]; [reflexivity|]. by rewrite string_app_cons, IH. Qed.

Lemma string_length_app (s1 s2 : string) :
  String.length (s1 +:+ s2) = (String.length s1 + String.length s2)%nat.
Proof.
  induction s1 as [|c s1 IH]; [reflexivity|]. rewrite string_app_cons. simpl. by rewrite IH.
Qed.

Lemma string_app_inv_tail (s1 s2 t : string) : s1 +:+ t = s2 +:+ t -> s1 = s2.
Proof.
  revert s2. induction s1 as [|c s1 IH]; intros [|c' s2] H.
  - reflexivity.
  - apply (f_equal String.length) in H. rewrite !string_length_app in H. simpl in H. lia.
  - apply (f_equal String.length) in H. rewrite !string_length_app in H. simpl in H. lia.
  - rewrite !string_app_cons in H. injection H as -> H. f_equal. by apply IH.
Qed.

Lemma startsWith_app (s t : string) : startsWith (s +:+ t) s = true.
Proof.
  induction s as [|c s IH]; [reflexivity|].
  rewrite string_app_cons. simpl. by rewrite Ascii.eqb_refl, IH.
Qed.








Lemma fingerprint_key_inj (key1 key2 : string) (options : option object) :
  makeCacheKeyUsingOptions key1 options = makeCacheKeyUsingOptions key2 options ->
  key1 = key2.
Proof.
  unfold makeCacheKeyUsingOptions. destruct options as [o|]; [|done].
  destruct (0 <? length o)%nat; [|done]. apply string_app_inv_tail.
Qed.

(** X2: under the same options, two keys with equal fingerprints are equal:
    different identities never share a cache entry. *)
Theorem fingerprint_key_injective (key1 key2 : string) (options : option object) :
  makeCacheKeyUsingOptions key1 options = makeCacheKeyUsingOptions key2 options ->
  key1 = key2.
Proof. apply fingerprint_key_inj. Qed.

Lemma fingerprint_key_injective_witness : "actor1~fb1"%string = "actor1~fb1"%string.
Proof.
  apply (fingerprint_key_injective "actor1~fb1" "actor1~fb1" (Some options_ab)). reflexivity.
Defined.

Lemma members_all_undefined (o : object) :
  Forall (fun p => p.2 = VUndef) o -> members o = [].
Proof.
  induction 1 as [|[k v] o Hv _ IH]; simpl in *; [reflexivity|]. by rewrite Hv.
Qed.

(** X3: an option bag whose properties all hold [undefined] is not empty for
    [Object.keys], but prints as an empty object: its fingerprint carries the
    digest of an empty object, whatever the property names. *)
Theorem fingerprint_all_undefined (key : string) (options : object) :
  options <> [] ->
  Forall (fun p => p.2 = VUndef) options ->
  makeCacheKeyUsingOptions key (Some options)
  = key +:+ "+99914b932bd37a50b983c5e7c90ae93b".
Proof.
  intros Hne Hall. unfold makeCacheKeyUsingOptions.
  destruct options as [|p o]; [done|]. cbn [length Nat.ltb Nat.leb].
  unfold stringify. rewrite (members_all_undefined _ Hall).
  vm_compute (Md5.md5_hex _). reflexivity.
Qed.

Lemma fingerprint_all_undefined_witness :
  makeCacheKeyUsingOptions "actor1~fb1" (Some undefined_options)
  = "actor1~fb1" +:+ "+99914b932bd37a50b983c5e7c90ae93b".
Proof.
  apply (fingerprint_all_undefined "actor1~fb1" undefined_options).
  - discriminate.
  - repeat constructor.
Defined.

Lemma split_cons (sep : ascii) (s : string) : exists h t, split sep s = h :: t.
Proof.
  pose proof (split_nonempty sep s). destruct (split sep s) as [|h t]; [done | by eexists _, _].
Qed.

Lemma join_split (s : string) :
  join "~" (split "~" s) = s
  /\ Forall (fun component => includes "~" component = false) (split "~" s).
Proof.
  induction s as [|c s [IHj IHf]]; simpl; [by repeat constructor|].
  destruct (split_cons "~" s) as (h & t & E). rewrite E in *.
  destruct (Ascii.eqb c "~") eqn:Hc.
  - apply Ascii.eqb_eq in Hc as ->. split; [|by constructor].
    change (join "~" (EmptyString :: h :: t)) with ("~" +:+ join "~" (h :: t)).
    by rewrite IHj.
  - apply Forall_cons in IHf as [Hh Ht]. split.
    + rewrite <- IHj. by destruct t.
    + constructor; [|exact Ht]. simpl. by rewrite Hc, Hh.
Qed.

(** X4: splitting an id on [~] and joining the components with [~] gives the id
    back, and no component contains a [~]. *)
Theorem split_join_roundtrip (s : string) :
  join "~" (split "~" s) = s
  /\ Forall (fun component => includes "~" component = false) (split "~" s).
Proof. apply join_split. Qed.

Lemma split_no_separator (sep : ascii) (s : string) :
  includes sep s = false -> split sep s = [s].
Proof.
  induction s as [|c s IH]; simpl; [done|].
  intros H. apply orb_false_elim in H as [Hc Hs]. rewrite Hc, (IH Hs). reflexivity.
Qed.

Lemma split_app_separator (sep : ascii) (s rest : string) :
  includes sep s = false ->
  split sep (s +:+ String sep rest) = s :: split sep rest.
Proof.
  induction s as [|c s IH].
  - intros _. rewrite string_app_nil_l. simpl. by rewrite Ascii.eqb_refl.
  - intros H. cbn [includes] in H. apply orb_false_elim in H as [Hc Hs].
    rewrite string_app_cons. cbn [split]. by rewrite Hc, (IH Hs).
Qed.

Lemma split_feedbackKey (actorId feedbackId : string) :
  includes "~" actorId = false ->
  includes "~" feedbackId = false ->
  split "~" (feedbackKey actorId feedbackId) = [actorId; feedbackId].
Proof.
  intros Ha Hf. unfold feedbackKey.
  change ("~" +:+ feedbackId) with (String "~" feedbackId).
  by rewrite (split_app_separator _ _ _ Ha), (split_no_separator _ _ Hf).
Qed.

(** ** The pass and the pending set *)

Lemma drain_pending (stack : list miss) (pending : gmap string string) (k : string) :
  (drain stack pending).1 !! k
  = if decide (k ∈ miss_id <$> stack) then None else pending !! k.
Proof.
  revert pending. induction stack as [|m rest IH]; intros pending; [reflexivity|].
  cbn [drain]. specialize (IH (delete (miss_id m) pending)).
  destruct (drain rest (delete (miss_id m) pending)) as [p qs]. cbn [fst] in *.
  assert (Hfst : (if (2 <=? length (split "~" (miss_id m)))%nat
                  then (p, Query (nth 0 (split "~" (miss_id m)) EmptyString)
                             (nth 1 (split "~" (miss_id m)) EmptyString) (miss_options m) :: qs)
                  else (p, qs)).1 = p) by (by destruct (2 <=? _)%nat).
  rewrite Hfst, IH. rewrite fmap_cons.
  destruct (decide (k = miss_id m)) as [->|Hne].
  - rewrite lookup_delete_eq. rewrite (decide_True (P := _ ∈ _ :: _)) by left.
    by destruct (decide _).
  - rewrite lookup_delete_ne by done.
    destruct (decide (k ∈ miss_id <$> rest)) as [Hin|Hnin].
    + rewrite decide_True by (by right). reflexivity.
    + rewrite decide_False; [reflexivity|]. intros [?|?]%elem_of_cons; done.
Qed.

Lemma elem_of_rev {A} (x : A) (l : list A) : x ∈ rev l <-> x ∈ l.
Proof. rewrite !list_elem_of_In. symmetry. apply in_rev. Qed.

Lemma rebuild_pending (w : bridge) (k : string) :
  pendingFeedbackChanges (rebuildFeedbackCache w).1 !! k
  = if decide (k ∈ miss_id <$> cacheMisses w) then None
    else pendingFeedbackChanges w !! k.
Proof.
  unfold rebuildFeedbackCache.
  pose proof (drain_pending (rev (cacheMisses w)) (pendingFeedbackChanges w) k) as H.
  destruct (drain _ _) as [p qs]. cbn in *. rewrite H.
  apply decide_ext. rewrite !list_elem_of_fmap. by setoid_rewrite elem_of_rev.
Qed.

Lemma rebuild_frame (w : bridge) :
  cacheMisses (rebuildFeedbackCache w).1 = []
  /\ localFeedbackCache (rebuildFeedbackCache w).1 = localFeedbackCache w
  /\ images (rebuildFeedbackCache w).1 = images w
  /\ timers (rebuildFeedbackCache w).1 = timers w
  /\ host (rebuildFeedbackCache w).1 = host w.
Proof. unfold rebuildFeedbackCache. destruct (drain _ _). repeat split. Qed.


(** X7: a pass removes the stale marker of every id that was on the queue,
    whether or not a query was issued for it, and keeps every other marker. *)
Theorem rebuild_clears_markers (w : bridge) (k : string) :
  pendingFeedbackChanges (rebuildFeedbackCache w).1 !! k
  = if decide (k ∈ miss_id <$> cacheMisses w) then None
    else pendingFeedbackChanges w !! k.
Proof. apply rebuild_pending. Qed.

(** ** A miss, rebuilt, is a hit *)

Lemma processResult_defined (images : option (gmap string string)) (result : record) :
  is_Some images \/ result !! "imageName"%string = None ->
  is_Some (processResult images result).
Proof.
  intros H. unfold processResult.
  destruct (result !! "imageName"%string) as [name|]; [|by eexists].
  destruct H as [[imgs ->] | H]; [|discriminate].
  destruct (imgs !! toString name); by eexists.
Qed.

(** X5: for an identity whose actor and feedback ids contain no [~]: a queued
    miss is popped by the pass as the query for that actor, feedback and
    options; once that query is answered, the poll of the same type and
    options returns the processed answer, queues nothing and leaves the state
    as it is. *)
Theorem miss_rebuilt_then_hit
    (w : bridge) (actorId feedbackId : string) (options : option object) (reply : record) :
  includes "~" actorId = false ->
  includes "~" feedbackId = false ->
  is_Some (images w) \/ reply !! "imageName"%string = None ->
  let type := feedbackKey actorId feedbackId in
  let pass := rebuildFeedbackCache (pushMiss type options w) in
  let answered := (settleMiss (Query actorId feedbackId options) (Fulfilled reply) pass.1).1 in
  head pass.2 = Some (Query actorId feedbackId options)
  /\ exists result,
       processResult (images w) reply = Some result
       /\ feedback type options answered = Some (Some result, answered)
       /\ cacheMisses answered = [].
Proof.
  intros Ha Hf Himg type pass answered.
  destruct (processResult_defined (images w) reply Himg) as [result Hres].
  split.
  - subst pass. rewrite rebuild_issued. cbn [pushMiss with_misses cacheMisses].
    rewrite rev_app_distr. cbn [rev app flat_map]. unfold issuedFor at 1. cbn [miss_id miss_options].
    subst type. rewrite (split_feedbackKey _ _ Ha Hf). reflexivity.
  - exists result. split; [exact Hres|].
    pose proof (rebuild_frame (pushMiss type options w)) as (Hq & Hc & Hi & _ & _).
    pose proof (rebuild_pending (pushMiss type options w) type) as Hp.
    rewrite decide_True in Hp
      by (cbn; rewrite fmap_app; apply elem_of_app; right; by left).
    fold pass in Hq, Hc, Hi, Hp.
    assert (Hmiss : cacheMisses answered = []) by (subst answered; exact Hq).
    split; [|exact Hmiss].
    unfold feedback. subst answered. cbn [settleMiss fst with_cache localFeedbackCache
      pendingFeedbackChanges images q_actorId q_feedbackId q_options].
    fold type. rewrite lookup_insert_eq, Hi. cbn [pushMiss with_misses images].
    rewrite Hres, Hp. unfold armCacheBuilder. cbn [with_cache cacheMisses]. by rewrite Hq.
Qed.

Lemma miss_rebuilt_then_hit_witness :
  head (rebuildFeedbackCache (pushMiss (feedbackKey "actor1" "fb1") None initial)).2
  = Some (Query "actor1" "fb1" None)
  /\ exists result,
       processResult (images initial) title_entry = Some result
       /\ feedback (feedbackKey "actor1" "fb1") None
            (settleMiss (Query "actor1" "fb1" None) (Fulfilled title_entry)
               (rebuildFeedbackCache (pushMiss (feedbackKey "actor1" "fb1") None initial)).1).1
          = Some (Some result,
                  (settleMiss (Query "actor1" "fb1" None) (Fulfilled title_entry)
                     (rebuildFeedbackCache
                        (pushMiss (feedbackKey "actor1" "fb1") None initial)).1).1)
       /\ cacheMisses
            (settleMiss (Query "actor1" "fb1" None) (Fulfilled title_entry)
               (rebuildFeedbackCache (pushMiss (feedbackKey "actor1" "fb1") None initial)).1).1
          = [].
Proof.
  apply (miss_rebuilt_then_hit initial "actor1" "fb1" None title_entry).
  - reflexivity.
  - reflexivity.
  - right. reflexivity.
Defined.

(** X6: a type that splits into three or more components is queried and cached
    under its first two components only, so the key written differs from the
    fingerprint that the poll of that type looks up. *)
Theorem extra_component_never_hits
    (type a b c : string) (rest : list string) (options : option object) :
  split "~" type = a :: b :: c :: rest ->
  makeCacheKeyUsingOptions (feedbackKey a b) options <> makeCacheKeyUsingOptions type options.
Proof.
  intros Hsplit Heq. apply fingerprint_key_inj in Heq.
  destruct (join_split type) as [Hjoin _]. rewrite Hsplit in Hjoin.
  change (join "~" (a :: b :: c :: rest))
    with (a +:+ "~" +:+ (b +:+ "~" +:+ join "~" (c :: rest))) in Hjoin.
  rewrite <- Hjoin in Heq. unfold feedbackKey in Heq.
  apply (f_equal String.length) in Heq. rewrite !string_length_app in Heq. simpl in Heq. lia.
Qed.

Lemma extra_component_never_hits_witness :
  makeCacheKeyUsingOptions (feedbackKey "actor1" "fb1") (Some options_ab)
  <> makeCacheKeyUsingOptions "actor1~fb1~x" (Some options_ab).
Proof.
  apply (extra_component_never_hits "actor1~fb1~x" "actor1" "fb1" "x" [] (Some options_ab)).
  reflexivity.
Defined.

(** ** Polls *)

Lemma armCacheBuilder_frame (w : bridge) :
  localFeedbackCache (armCacheBuilder w) = localFeedbackCache w
  /\ pendingFeedbackChanges (armCacheBuilder w) = pendingFeedbackChanges w
  /\ images (armCacheBuilder w) = images w
  /\ connectionWatchdog (armCacheBuilder w) = connectionWatchdog w
  /\ sockets (armCacheBuilder w) = sockets w
  /\ host (armCacheBuilder w) = host w.
Proof.
  unfold armCacheBuilder. destruct (cacheMisses w); [done|].
  destruct (this_cacheBuilder w); repeat split.
Qed.

Lemma feedback_preserves
    (w w' : bridge) (type : string) (options : option object) (result : option record) :
  feedback type options w = Some (result, w') ->
  localFeedbackCache w' = localFeedbackCache w
  /\ pendingFeedbackChanges w' = pendingFeedbackChanges w
  /\ images w' = images w
  /\ connectionWatchdog w' = connectionWatchdog w
  /\ sockets w' = sockets w
  /\ host w' = host w
  /\ (cacheMisses w' = cacheMisses w \/ cacheMisses w' = cacheMisses w ++ [Miss type options]).
Proof.
  unfold feedback. intros H.
  assert (Hpush : forall v, armCacheBuilder v = w' ->
            (v = w \/ v = pushMiss type options w) ->
            localFeedbackCache w' = localFeedbackCache w
            /\ pendingFeedbackChanges w' = pendingFeedbackChanges w
            /\ images w' = images w
            /\ connectionWatchdog w' = connectionWatchdog w
            /\ sockets w' = sockets w
            /\ host w' = host w
            /\ (cacheMisses w' = cacheMisses w
                \/ cacheMisses w' = cacheMisses w ++ [Miss type options])).
  { intros v <- Hv. pose proof (armCacheBuilder_frame v) as (H1 & H2 & H3 & H4 & H5 & H6).
    rewrite H1, H2, H3, H4, H5, H6, armCacheBuilder_cacheMisses.
    destruct Hv as [-> | ->]; repeat split; auto. }
  destruct (localFeedbackCache w !! makeCacheKeyUsingOptions type options) as [entry|].
  - destruct (processResult (images w) entry); [|discriminate].
    injection H as _ H. apply (Hpush _ H).
    destruct (pendingFeedbackChanges w !! type) as [marker|]; [|by left].
    destruct (String.eqb marker EmptyString); [by left | by right].
  - injection H as _ H. apply (Hpush _ H). by right.
Qed.

(** X8: a poll never writes the cache, the pending set, the image set, the
    watchdog handle, the sockets or the host; the queue stays or grows by the
    polled miss. *)
Theorem feedback_frame
    (w w' : bridge) (type : string) (options : option object) (result : option record) :
  feedback type options w = Some (result, w') ->
  localFeedbackCache w' = localFeedbackCache w
  /\ pendingFeedbackChanges w' = pendingFeedbackChanges w
  /\ images w' = images w
  /\ connectionWatchdog w' = connectionWatchdog w
  /\ sockets w' = sockets w
  /\ host w' = host w
  /\ (cacheMisses w' = cacheMisses w \/ cacheMisses w' = cacheMisses w ++ [Miss type options]).
Proof. apply feedback_preserves. Qed.

Lemma feedback_frame_witness :
  localFeedbackCache (armCacheBuilder (pushMiss "actor1~fb1" None initial))
  = localFeedbackCache initial
  /\ pendingFeedbackChanges (armCacheBuilder (pushMiss "actor1~fb1" None initial))
     = pendingFeedbackChanges initial
  /\ images (armCacheBuilder (pushMiss "actor1~fb1" None initial)) = images initial
  /\ connectionWatchdog (armCacheBuilder (pushMiss "actor1~fb1" None initial))
     = connectionWatchdog initial
  /\ sockets (armCacheBuilder (pushMiss "actor1~fb1" None initial)) = sockets initial
  /\ host (armCacheBuilder (pushMiss "actor1~fb1" None initial)) = host initial
  /\ (cacheMisses (armCacheBuilder (pushMiss "actor1~fb1" None initial)) = cacheMisses initial
      \/ cacheMisses (armCacheBuilder (pushMiss "actor1~fb1" None initial))
         = cacheMisses initial ++ [Miss "actor1~fb1" None]).
Proof.
  apply (feedback_frame initial _ "actor1~fb1" None None). reflexivity.
Defined.

Lemma cold_poll (w : bridge) (type : string) (options : option object) :
  reachable w ->
  localFeedbackCache w !! makeCacheKeyUsingOptions type options = None ->
  exists w',
    feedback type options w = Some (None, w')
    /\ cacheMisses w' = cacheMisses w ++ [Miss type options]
    /\ timers w' = timers w ++ [Timer (nextTimer w) 500 RebuildCache]
    /\ cacheBuilder w' = Some (nextTimer w).
Proof.
  intros Hr Hcold. pose proof (inv_this _ (reachable_inv w Hr)) as Hthis.
  unfold feedback. rewrite Hcold. eexists. split; [reflexivity|].
  unfold armCacheBuilder. cbn [pushMiss with_misses cacheMisses this_cacheBuilder].
  rewrite Hthis. destruct (cacheMisses w) as [|m q] eqn:E; simpl; rewrite ?E; repeat split; reflexivity.
Qed.





(** ** Intervals and cache keys along the event loop *)

Lemma filter_all {A} (P : A -> Prop) `{forall x, Decision (P x)} (l : list A) :
  Forall P l -> filter P l = l.
Proof.
  induction 1 as [|x l Hx _ IH]; [reflexivity|]. by rewrite filter_cons_True, IH.
Qed.

Lemma rebuildTimers_snoc_rebuild (ts : list timer) (n : nat) :
  filter (fun t => timer_action t = RebuildCache) (ts ++ [Timer n 500 RebuildCache])
  = filter (fun t => timer_action t = RebuildCache) ts ++ [Timer n 500 RebuildCache].
Proof. rewrite filter_app. f_equal. Qed.

Lemma rebuildTimers_snoc_reconnect (ts : list timer) (n : nat) :
  filter (fun t => timer_action t = RebuildCache) (ts ++ [Timer n 5000 Reconnect])
  = filter (fun t => timer_action t = RebuildCache) ts.
Proof.
  rewrite filter_app, (filter_cons_False _ (Timer n 5000 Reconnect)) by (simpl; discriminate).
  by rewrite filter_nil, app_nil_r.
Qed.

Lemma armCacheBuilder_timers (v : bridge) :
  this_cacheBuilder v = None ->
  rebuildTimers (armCacheBuilder v) = rebuildTimers v
  \/ rebuildTimers (armCacheBuilder v)
     = rebuildTimers v ++ [Timer (nextTimer v) 500 RebuildCache].
Proof.
  intros Hthis. unfold armCacheBuilder. destruct (cacheMisses v); [by left|].
  rewrite Hthis. right. unfold rebuildTimers. cbn. apply rebuildTimers_snoc_rebuild.
Qed.

(** X11: no event removes a rebuild interval from a reachable state: a step
    leaves the live rebuild intervals as they are or adds one with a fresh
    handle. *)
Theorem rebuild_intervals_never_cleared (w : bridge) (e : event) :
  reachable w ->
  rebuildTimers (step e w) = rebuildTimers w
  \/ rebuildTimers (step e w) = rebuildTimers w ++ [Timer (nextTimer w) 500 RebuildCache].
Proof.
  intros Hr. pose proof (reachable_inv w Hr) as Hinv.
  pose proof Hinv as [Hthis Hfresh Hnd Harmed].
  destruct e; cbn [step].
  - unfold feedback.
    destruct (localFeedbackCache w !! makeCacheKeyUsingOptions type options) as [entry|].
    + destruct (processResult (images w) entry); [|by left].
      destruct (pendingFeedbackChanges w !! type) as [marker|];
        [destruct (String.eqb marker EmptyString)|].
      * by apply armCacheBuilder_timers.
      * by apply (armCacheBuilder_timers (pushMiss type options w)).
      * by apply armCacheBuilder_timers.
    + by apply (armCacheBuilder_timers (pushMiss type options w)).
  - by left.
  - left. unfold tick. destruct (find _ _) as [t|]; [|reflexivity].
    destruct (timer_action t); [reflexivity|].
    pose proof (rebuild_frame w) as (_ & _ & _ & Ht & _).
    destruct (rebuildFeedbackCache w) as [w1 qs]. cbn [fst] in Ht.
    unfold rebuildTimers. by rewrite Ht.
  - left. unfold allSettled. pose proof (settlePass_frame answers w) as (_ & Ht & _ & _).
    unfold rebuildTimers. destruct (settlePass answers w) as [w1 all]. cbn [fst] in Ht.
    destruct answers; [by rewrite Ht|]. destruct all; by rewrite <- Ht.
  - by left.
  - by left.
  - left. unfold onOpen. destruct (connectionWatchdog w) as [handle|] eqn:Hc; [|reflexivity].
    unfold rebuildTimers. cbn. rewrite filter_swap. apply filter_all.
    apply Forall_forall. intros t [Hact Ht]%list_elem_of_filter Hid.
    assert (Hin : Timer handle 5000 Reconnect ∈ timers w).
    { assert (H : Timer handle 5000 Reconnect ∈ reconnectTimers w) by (rewrite Harmed; left).
      unfold reconnectTimers in H. by apply list_elem_of_filter in H as [_ H]. }
    pose proof (unique_handle (timers w) t _ Hnd Ht Hin Hid) as ->. discriminate.
  - by left.
  - left. unfold onClose. destruct (connectionWatchdog w); [reflexivity|].
    unfold rebuildTimers. cbn. apply rebuildTimers_snoc_reconnect.
Qed.

Lemma rebuild_intervals_never_cleared_witness :
  rebuildTimers (step (Poll "actor1~fb1" None) initial) = rebuildTimers initial
  \/ rebuildTimers (step (Poll "actor1~fb1" None) initial)
     = rebuildTimers initial ++ [Timer (nextTimer initial) 500 RebuildCache].
Proof.
  apply (rebuild_intervals_never_cleared initial (Poll "actor1~fb1" None)).
  apply reachable_initial.
Defined.





(** ** The state-resolution step *)

Ltac field_in := solve [repeat (first [by left | right])].

Lemma resolveOverlay_strips playStates (value : record) (queryKey : Json.value) :
  value !! "overlayQueryKey"%string = Some queryKey ->
  resolveOverlay playStates value !! "overlayQueryKey"%string = None
  /\ resolveOverlay playStates value !! "overlayImageName_running"%string = None
  /\ resolveOverlay playStates value !! "overlayImageName_paused"%string = None.
Proof. intros Hq. unfold resolveOverlay. rewrite Hq. repeat split; by_lookup. Qed.

Lemma resolvePng_strips playStates (value : record) (queryKey : Json.value) :
  value !! "pngQueryKey"%string = Some queryKey ->
  resolvePng playStates value !! "pngQueryKey"%string = None
  /\ resolvePng playStates value !! "png_running"%string = None
  /\ resolvePng playStates value !! "png_paused"%string = None.
Proof. intros Hq. unfold resolvePng. rewrite Hq. repeat split; by_lookup. Qed.

Lemma resolveState_strips
    (c : conditional) (playStates : gmap string record) (value : record)
    (queryKey : Json.value) :
  value !! queryKeyField c = Some queryKey ->
  resolveState playStates value !! queryKeyField c = None
  /\ resolveState playStates value !! runningField c = None
  /\ resolveState playStates value !! pausedField c = None.
Proof.
  intros Hq. unfold resolveState. destruct c; simpl in *.
  - rewrite !resolvePng_overlay_fields by set_solver.
    by apply (resolveOverlay_strips _ _ queryKey).
  - apply (resolvePng_strips _ _ queryKey).
    by rewrite resolveOverlay_png_fields by set_solver.
Qed.

(** X14: whatever the play state, a state that carries the query key of a
    family comes out without that query key and without both suffixed
    fields. *)
Theorem resolveState_strips_conditionals
    (c : conditional) (playStates : gmap string record) (value : record)
    (queryKey : Json.value) :
  value !! queryKeyField c = Some queryKey ->
  resolveState playStates value !! queryKeyField c = None
  /\ resolveState playStates value !! runningField c = None
  /\ resolveState playStates value !! pausedField c = None.
Proof. apply resolveState_strips. Qed.

Lemma resolveState_strips_conditionals_witness :
  resolveState layer1_running png_state !! queryKeyField Png = None
  /\ resolveState layer1_running png_state !! runningField Png = None
  /\ resolveState layer1_running png_state !! pausedField Png = None.
Proof.
  apply (resolveState_strips_conditionals Png layer1_running png_state (VStr "layer1")).
  vm_compute. reflexivity.
Defined.

Lemma resolveState_fixed (playStates : gmap string record) (value : record) :
  value !! "overlayQueryKey"%string = None ->
  value !! "pngQueryKey"%string = None ->
  resolveState playStates value = value.
Proof.
  intros Ho Hp. unfold resolveState, resolvePng, resolveOverlay. by rewrite Ho, Hp.
Qed.

(** X15: a state with neither query key is returned as it is; suffixed fields
    without their query key stay in place. *)
Theorem resolveState_without_query_keys (playStates : gmap string record) (value : record) :
  value !! "overlayQueryKey"%string = None ->
  value !! "pngQueryKey"%string = None ->
  resolveState playStates value = value.
Proof. apply resolveState_fixed. Qed.

Lemma resolveState_without_query_keys_witness :
  resolveState layer1_running bare_state = bare_state.
Proof.
  apply (resolveState_without_query_keys layer1_running bare_state);
    vm_compute; reflexivity.
Defined.

Lemma resolveState_no_query_key (playStates : gmap string record) (value : record) :
  resolveState playStates value !! "overlayQueryKey"%string = None
  /\ resolveState playStates value !! "pngQueryKey"%string = None.
Proof.
  split.
  - destruct (value !! "overlayQueryKey"%string) as [qk|] eqn:E.
    + by destruct (resolveState_strips OverlayImageName playStates value qk E).
    + unfold resolveState. rewrite resolvePng_overlay_fields by field_in.
      unfold resolveOverlay. by rewrite E.
  - destruct (value !! "pngQueryKey"%string) as [qk|] eqn:E.
    + by destruct (resolveState_strips Png playStates value qk E).
    + unfold resolveState, resolvePng.
      rewrite (resolveOverlay_png_fields _ _ "pngQueryKey"), E by field_in.
      by rewrite (resolveOverlay_png_fields _ _ "pngQueryKey") by field_in.
Qed.

(** X16: resolving a resolved state changes nothing. *)
Theorem resolveState_idempotent (playStates : gmap string record) (value : record) :
  resolveState playStates (resolveState playStates value) = resolveState playStates value.
Proof.
  destruct (resolveState_no_query_key playStates value) as [Ho Hp].
  by apply resolveState_fixed.
Qed.

Lemma resolveOverlay_other_fields playStates (value : record) (k : string) :
  k ∉ ["overlayQueryKey"; "overlayImageName_running"; "overlayImageName_paused";
       "overlayImageName"]%string ->
  resolveOverlay playStates value !! k = value !! k.
Proof.
  intros Hk. repeat (apply not_elem_of_cons in Hk as [? Hk]).
  unfold resolveOverlay. by_lookup.
Qed.

Lemma resolvePng_other_fields playStates (value : record) (k : string) :
  k ∉ ["pngQueryKey"; "png_running"; "png_paused"; "png"]%string ->
  resolvePng playStates value !! k = value !! k.
Proof.
  intros Hk. repeat (apply not_elem_of_cons in Hk as [? Hk]).
  unfold resolvePng. by_lookup.
Qed.

(** X17: the resolution step touches none but the eight conditional fields. *)
Theorem resolveState_other_fields
    (playStates : gmap string record) (value : record) (k : string) :
  k ∉ conditionalFields ->
  resolveState playStates value !! k = value !! k.
Proof.
  intros Hk. unfold conditionalFields in Hk. unfold resolveState.
  repeat (apply not_elem_of_cons in Hk as [? Hk]).
  rewrite resolvePng_other_fields, resolveOverlay_other_fields; [reflexivity|..];
    repeat (apply not_elem_of_cons; split; [done|]); apply not_elem_of_nil.
Qed.

Lemma resolveState_other_fields_witness :
  resolveState layer1_running png_state !! "text"%string = png_state !! "text"%string.
Proof.
  apply (resolveState_other_fields layer1_running png_state "text").
  apply (bool_decide_unpack _). vm_compute. reflexivity.
Defined.

(** X18: with a play state that is neither running nor paused the unsuffixed
    field is left as the reply had it. *)
Theorem other_play_state_selects_nothing
    (c : conditional) (playStates : gmap string record) (value : record)
    (queryKey : Json.value) :
  value !! queryKeyField c = Some queryKey ->
  playStateOf playStates queryKey <> VStr "running" ->
  playStateOf playStates queryKey <> VStr "paused" ->
  resolveState playStates value !! plainField c = value !! plainField c.
Proof.
  intros Hq Hr Hp. unfold resolveState. destruct c; simpl in *.
  - rewrite resolvePng_overlay_fields by field_in.
    unfold resolveOverlay. rewrite Hq. by_lookup.
  - rewrite <- (resolveOverlay_png_fields playStates value "png") by field_in.
    rewrite <- (resolveOverlay_png_fields playStates value "pngQueryKey") in Hq by field_in.
    unfold resolvePng. rewrite Hq. by_lookup.
Qed.

Lemma other_play_state_selects_nothing_witness :
  resolveState layer1_done overlay_state !! plainField OverlayImageName
  = overlay_state !! plainField OverlayImageName.
Proof.
  apply (other_play_state_selects_nothing OverlayImageName layer1_done overlay_state
           (VStr "layer1")).
  - vm_compute. reflexivity.
  - vm_compute. discriminate.
  - vm_compute. discriminate.
Defined.

(** X19: the overlay pair collapses to the variant of the play state: the
    running value when running, the paused value when paused. *)
Theorem overlay_pair_follows_play_state
    (playStates : gmap string record) (value : record)
    (queryKey running paused : Json.value) :
  value !! "overlayQueryKey"%string = Some queryKey ->
  value !! "overlayImageName_running"%string = Some running ->
  value !! "overlayImageName_paused"%string = Some paused ->
  (playStateOf playStates queryKey = VStr "running" ->
   resolveState playStates value !! "overlayImageName"%string = Some running)
  /\ (playStateOf playStates queryKey = VStr "paused" ->
      resolveState playStates value !! "overlayImageName"%string = Some paused).
Proof.
  intros Hq Hr Hp. unfold resolveState.
  rewrite resolvePng_overlay_fields by field_in.
  by apply (resolveOverlay_selects playStates value queryKey).
Qed.

Lemma overlay_pair_follows_play_state_witness :
  (playStateOf layer1_running (VStr "layer1") = VStr "running" ->
   resolveState layer1_running overlay_state !! "overlayImageName"%string
   = Some (VStr "glow1"))
  /\ (playStateOf layer1_running (VStr "layer1") = VStr "paused" ->
      resolveState layer1_running overlay_state !! "overlayImageName"%string
      = Some (VStr "glow2")).
Proof.
  apply (overlay_pair_follows_play_state layer1_running overlay_state (VStr "layer1")
           (VStr "glow1") (VStr "glow2")); vm_compute; reflexivity.
Defined.

(** X20: the detail query never rejects; when the reply cannot be parsed it
    is left unsettled. *)
Theorem details_never_reject
    (images : option (gmap string string)) (sharp : string -> string -> option string)
    (playStates : gmap string record) :
  (forall state reason, queryFeedbackDetails images sharp state <> Rejected reason)
  /\ queryFeedbackDetails images sharp (queryFeedbackState None playStates) = Pending.
Proof.
  split; [|reflexivity].
  intros state reason. unfold queryFeedbackDetails. repeat case_match; discriminate.
Qed.

Lemma settlePass_host (answers : list (query * settled record)) (w : bridge) :
  host (settlePass answers w).1 = host w
  /\ (settlePass answers w).2
     = forallb (fun a => match a.2 with Pending => false | _ => true end) answers.
Proof.
  revert w. induction answers as [|[q d] rest IH]; intros w; [done|].
  cbn [settlePass forallb]. destruct (settleMiss q d w) as [w1 p] eqn:E.
  specialize (IH w1). destruct (settlePass rest w1) as [w2 all]. cbn [fst snd] in *.
  destruct IH as [IHh IHa].
  assert (host w1 = host w /\ p = match d with Pending => Pending | _ => Fulfilled tt end)
    as [H1 ->] by (destruct d; simpl in E; injection E as <- <-; done).
  split; [congruence|]. by destruct d.
Qed.

(** X21: after a pass with at least one query the host is asked to
    re-evaluate all feedbacks exactly when every answer has settled; one
    unsettled answer keeps the host from being asked. *)
Theorem recheck_only_after_all_settled
    (answers : list (query * settled record)) (w : bridge) :
  answers <> [] ->
  host (allSettled answers w)
  = if forallb (fun a => match a.2 with Pending => false | _ => true end) answers
    then host w ++ [CheckFeedbacks None] else host w.
Proof.
  intros Hne. unfold allSettled. destruct (settlePass_host answers w) as [Hh Ha].
  destruct (settlePass answers w) as [w1 all]. cbn [fst snd] in *. subst all.
  destruct answers; [done|]. destruct (forallb _ _); simpl; by rewrite Hh.
Qed.

Lemma recheck_only_after_all_settled_witness :
  host (allSettled [(Query "actor1" "fb1" None, Pending)] initial)
  = if forallb (fun a => match a.2 with Pending => false | _ => true end)
         [(Query "actor1" "fb1" None, @Pending record)]
    then host initial ++ [CheckFeedbacks None] else host initial.
Proof.
  apply (recheck_only_after_all_settled [(Query "actor1" "fb1" None, Pending)] initial).
  discriminate.
Defined.

(** X22: when the overlay is in the image set and the pipeline succeeds, the
    detail query is fulfilled with [png64] replaced by the composite,
    [layerImageName] removed and every other field unchanged. *)
Theorem compositing_success_replaces_base
    (imgs : gmap string string) (sharp : string -> string -> option string)
    (state : record) (name : Json.value) (overlay base buffer : string) :
  state !! "overlayImageName"%string = Some name ->
  imgs !! toString name = Some overlay ->
  overlay <> EmptyString ->
  state !! "png64"%string = Some (VStr base) ->
  sharp base overlay = Some buffer ->
  exists result,
    queryFeedbackDetails (Some imgs) sharp (Fulfilled state) = Fulfilled result
    /\ result !! "png64"%string = Some (VStr buffer)
    /\ result !! "layerImageName"%string = None
    /\ forall k, k <> "png64"%string -> k <> "layerImageName"%string ->
                 result !! k = state !! k.
Proof.
  intros Hname Himg Hne Hbase Hsharp. unfold queryFeedbackDetails.
  rewrite Hname, Himg. apply String.eqb_neq in Hne. rewrite Hne.
  rewrite lookup_delete_ne, Hbase, Hsharp by done.
  eexists. split; [reflexivity|]. repeat split.
  - by rewrite lookup_insert_eq.
  - by rewrite lookup_insert_ne, lookup_delete_eq.
  - intros k H1 H2. by rewrite lookup_insert_ne, lookup_delete_ne.
Qed.

Lemma compositing_success_replaces_base_witness :
  exists result,
    queryFeedbackDetails (Some glow_images) sharp_fixed (Fulfilled glow_state)
    = Fulfilled result
    /\ result !! "png64"%string = Some (VStr "Y29tcG9zaXRl")
    /\ result !! "layerImageName"%string = None
    /\ forall k, k <> "png64"%string -> k <> "layerImageName"%string ->
                 result !! k = glow_state !! k.
Proof.
  apply (compositing_success_replaces_base glow_images sharp_fixed glow_state (VStr "glow1")
           "Z2xvdw==" "YmFzZQ==" "Y29tcG9zaXRl").
  - vm_compute. reflexivity.
  - vm_compute. reflexivity.
  - discriminate.
  - vm_compute. reflexivity.
  - reflexivity.
Defined.



(** X24: a fulfilled detail query carries [imageName] only next to
    [overlayImageName]. *)
Theorem details_imageName_needs_overlay
    (images : option (gmap string string)) (sharp : string -> string -> option string)
    (state : settled record) (result : record) :
  queryFeedbackDetails images sharp state = Fulfilled result ->
  is_Some (result !! "imageName"%string) ->
  is_Some (result !! "overlayImageName"%string).
Proof.
  unfold queryFeedbackDetails. intros H [v Hv].
  repeat case_match; simplify_eq; simplify_map_eq; eauto.
Qed.

Lemma details_imageName_needs_overlay_witness :
  is_Some (delete "layerImageName"%string both_names_state !! "overlayImageName"%string).
Proof.
  apply (details_imageName_needs_overlay (Some logo_images) sharp_rejects
           (Fulfilled both_names_state) (delete "layerImageName"%string both_names_state)).
  - vm_compute. reflexivity.
  - vm_compute. eexists. reflexivity.
Defined.

(** ** Definitions, eviction, priming and debouncing *)

(** X29: a definition request rejects, with the reason [Type not supported],
    exactly for the kinds other than actions, presets, feedbacks and
    lastUpdateTimestamp. *)
Theorem definition_kinds {A : Type} (kind : string) (reply : gmap string A) :
  requestCompanionDefinition kind reply = Rejected "Type not supported"
  <-> kind ∉ ["actions"; "presets"; "feedbacks"; "lastUpdateTimestamp"]%string.
Proof.
  unfold requestCompanionDefinition. split.
  - intros H Hk.
    repeat (apply elem_of_cons in Hk as [-> | Hk]); [..|by apply elem_of_nil in Hk];
      discriminate H.
  - intros Hk. repeat (apply not_elem_of_cons in Hk as [? Hk]).
    by rewrite !(proj2 (String.eqb_neq _ _)).
Qed.

Lemma lookup_removeAllKeysWithPrefix (prefix : string) (w : bridge) (k : string) :
  localFeedbackCache (removeAllKeysWithPrefix prefix w) !! k
  = if startsWith k prefix then None else localFeedbackCache w !! k.
Proof.
  unfold removeAllKeysWithPrefix. cbn [with_cache localFeedbackCache].
  destruct (startsWith k prefix) eqn:E.
  - apply map_lookup_filter_None. right. intros x _. simpl. congruence.
  - destruct (localFeedbackCache w !! k) as [x|] eqn:Hk.
    + apply map_lookup_filter_Some. by split.
    + apply map_lookup_filter_None. by left.
Qed.

(** X25: after the eviction a key that starts with the prefix is absent and
    any other key has the entry it had; queue, pending set and timers are
    untouched. *)
Theorem removeAllKeysWithPrefix_spec (prefix : string) (w : bridge) (k : string) :
  localFeedbackCache (removeAllKeysWithPrefix prefix w) !! k
  = (if startsWith k prefix then None else localFeedbackCache w !! k)
  /\ cacheMisses (removeAllKeysWithPrefix prefix w) = cacheMisses w
  /\ pendingFeedbackChanges (removeAllKeysWithPrefix prefix w) = pendingFeedbackChanges w
  /\ timers (removeAllKeysWithPrefix prefix w) = timers w.
Proof. split; [apply lookup_removeAllKeysWithPrefix | repeat split]. Qed.

Lemma startsWith_app_l (s t prefix : string) :
  startsWith s prefix = true -> startsWith (s +:+ t) prefix = true.
Proof.
  revert s. induction prefix as [|p prefix IH]; intros s; [done|].
  destruct s as [|c s]; [done|]. rewrite string_app_cons. cbn [startsWith].
  intros [-> H]%andb_prop. by rewrite (IH _ H).
Qed.

Lemma startsWith_same_actor (sep : ascii) (a a' rest rest' : string) :
  includes sep a = false -> includes sep a' = false ->
  startsWith (a' +:+ String sep rest') (a +:+ String sep rest) = true -> a = a'.
Proof.
  revert a'. induction a as [|c a IH]; intros [|c' a'] Ha Ha' H.
  - reflexivity.
  - rewrite string_app_nil_l, string_app_cons in H. cbn [startsWith includes] in *.
    apply andb_prop in H as [H _]. apply orb_false_elim in Ha' as [Hc _]. congruence.
  - rewrite string_app_nil_l, string_app_cons in H. cbn [startsWith includes] in *.
    apply andb_prop in H as [H _]. apply orb_false_elim in Ha as [Hc _].
    rewrite Ascii.eqb_sym in H. congruence.
  - rewrite !string_app_cons in H. cbn [startsWith includes] in *.
    apply andb_prop in H as [Hcc H]. apply Ascii.eqb_eq in Hcc as ->.
    apply orb_false_elim in Ha as [_ Ha]. apply orb_false_elim in Ha' as [_ Ha'].
    f_equal. by apply IH.
Qed.

Lemma fingerprint_split (key : string) (options : option object) :
  exists suffix, makeCacheKeyUsingOptions key options = key +:+ suffix.
Proof.
  unfold makeCacheKeyUsingOptions. destruct options as [o|].
  - destruct (0 <? length o)%nat; [by eexists | exists EmptyString; by rewrite string_app_nil_r].
  - exists EmptyString. by rewrite string_app_nil_r.
Qed.

Lemma string_app_assoc (s t u : string) : (s +:+ t) +:+ u = s +:+ (t +:+ u).
Proof. induction s as [|c s IH]; [reflexivity|]. by rewrite !string_app_cons, IH. Qed.

(** X26: evicting the prefix [actorId~] removes the entries of every feedback
    and option bag of that actor and keeps those of any other actor. *)
Theorem evicting_an_actor
    (w : bridge) (actorId other feedbackId : string) (options : option object) :
  includes "~" actorId = false ->
  includes "~" other = false ->
  other <> actorId ->
  localFeedbackCache (removeAllKeysWithPrefix (actorId +:+ "~") w)
    !! makeCacheKeyUsingOptions (feedbackKey actorId feedbackId) options = None
  /\ localFeedbackCache (removeAllKeysWithPrefix (actorId +:+ "~") w)
       !! makeCacheKeyUsingOptions (feedbackKey other feedbackId) options
     = localFeedbackCache w !! makeCacheKeyUsingOptions (feedbackKey other feedbackId) options.
Proof.
  intros Ha Ho Hne. split.
  - rewrite lookup_removeAllKeysWithPrefix.
    destruct (fingerprint_split (feedbackKey actorId feedbackId) options) as [suffix ->].
    unfold feedbackKey. rewrite <- (string_app_assoc actorId "~" feedbackId).
    by rewrite startsWith_app_l by apply startsWith_app.
  - rewrite lookup_removeAllKeysWithPrefix.
    destruct (startsWith _ _) eqn:E; [|reflexivity]. exfalso. apply Hne. symmetry.
    destruct (fingerprint_split (feedbackKey other feedbackId) options) as [suffix Hs].
    rewrite Hs in E. unfold feedbackKey in E. rewrite string_app_assoc in E.
    change ("~" +:+ feedbackId) with (String "~" feedbackId) in E.
    rewrite string_app_cons in E.
    change (actorId +:+ "~") with (actorId +:+ String "~" EmptyString) in E.
    by apply (startsWith_same_actor "~" _ _ _ _ Ha Ho E).
Qed.

Lemma evicting_an_actor_witness :
  localFeedbackCache (removeAllKeysWithPrefix ("actor1" +:+ "~") warm)
    !! makeCacheKeyUsingOptions (feedbackKey "actor1" "fb1") None = None
  /\ localFeedbackCache (removeAllKeysWithPrefix ("actor1" +:+ "~") warm)
       !! makeCacheKeyUsingOptions (feedbackKey "actor2" "fb1") None
     = localFeedbackCache warm !! makeCacheKeyUsingOptions (feedbackKey "actor2" "fb1") None.
Proof.
  apply (evicting_an_actor warm "actor1" "actor2" "fb1" None).
  - reflexivity.
  - reflexivity.
  - discriminate.
Defined.

Lemma debounce_inv {A : Type} (es : list (debounce_event A)) :
  db_live (debounce_run es) = []
  \/ exists handle args,
       db_live (debounce_run es) = [(handle, args)]
       /\ db_timer (debounce_run es) = Some handle.
Proof.
  induction es as [|e es IH] using rev_ind; [by left|].
  unfold debounce_run in *. rewrite fold_left_app. cbn [fold_left].
  set (d := fold_left debounce_step es debounce) in *.
  destruct e as [args|handle]; cbn [debounce_step].
  - right. exists (db_next d), args. unfold debounce_call. cbn. split; [|reflexivity].
    destruct IH as [-> | (h & a & -> & ->)].
    + by destruct (db_timer d).
    + by rewrite filter_cons_False by (simpl; tauto).
  - unfold debounce_fire. destruct (find _ _) as [[h a]|] eqn:E; [|exact IH]. left. cbn.
    destruct IH as [Hl | (h' & a' & Hl & _)]; rewrite Hl in *; [done|].
    cbn in E. destruct (Nat.eqb h' handle) eqn:Hh; [|discriminate].
    apply Nat.eqb_eq in Hh as ->. by rewrite filter_cons_False by (simpl; tauto).
Qed.

(** X28: whatever calls and firings came before, at most one timeout is
    live; after a call exactly one is live and it carries the arguments of
    that call; the call itself applies nothing, and the firing of that timeout
    applies the function once, to those arguments, and leaves no timeout
    live. *)
Theorem debounce_last_call_wins {A : Type} (es : list (debounce_event A)) (args : A) :
  (length (db_live (debounce_run es)) <= 1)%nat
  /\ db_live (debounce_run (es ++ [DbCall args])) = [(db_next (debounce_run es), args)]
  /\ db_applied (debounce_run (es ++ [DbCall args])) = db_applied (debounce_run es)
  /\ db_live (debounce_run (es ++ [DbCall args; DbFire (db_next (debounce_run es))])) = []
  /\ db_applied (debounce_run (es ++ [DbCall args; DbFire (db_next (debounce_run es))]))
     = db_applied (debounce_run es) ++ [args].
Proof.
  assert (Hcall : db_live (debounce_run (es ++ [DbCall args]))
                  = [(db_next (debounce_run es), args)]
                  /\ db_applied (debounce_run (es ++ [DbCall args]))
                     = db_applied (debounce_run es)).
  { unfold debounce_run. rewrite fold_left_app. cbn [fold_left debounce_step].
    fold (debounce_run es). unfold debounce_call. cbn. split; [|reflexivity].
    destruct (debounce_inv es) as [-> | (h & a & -> & ->)].
    - by destruct (db_timer (debounce_run es)).
    - by rewrite filter_cons_False by (simpl; tauto). }
  destruct Hcall as [Hlive Happlied].
  split; [|split; [exact Hlive|split; [exact Happlied|]]].
  - destruct (debounce_inv es) as [-> | (h & a & -> & _)]; simpl; lia.
  - change [DbCall args; DbFire (db_next (debounce_run es))]
      with ([DbCall args] ++ [DbFire (db_next (debounce_run es))]).
    rewrite app_assoc. unfold debounce_run at 1 3. rewrite fold_left_app.
    cbn [fold_left debounce_step]. fold (debounce_run (es ++ [DbCall args])).
    unfold debounce_fire. rewrite Hlive. cbn. rewrite Nat.eqb_refl. cbn.
    rewrite Happlied. split; [|reflexivity].
    by rewrite decide_False by tauto.
Qed.

Lemma iter_polls_reachable (w : bridge) (type : string) (options : option object) (n : nat) :
  reachable w -> reachable (Nat.iter n (step (Poll type options)) w).
Proof.
  intros Hr. induction n as [|n IH]; [exact Hr|]. rewrite Nat.iter_succ. by apply reachable_step.
Qed.

Lemma iter_polls_cache (w : bridge) (type : string) (options : option object) (n : nat) :
  localFeedbackCache (Nat.iter n (step (Poll type options)) w) = localFeedbackCache w.
Proof.
  induction n as [|n IH]; [reflexivity|]. rewrite Nat.iter_succ. cbn [step].
  destruct (feedback type options _) as [[r w']|] eqn:E; [|exact IH].
  destruct (feedback_preserves _ _ _ _ _ E) as (-> & _). exact IH.
Qed.

(** X13: polling an uncached fingerprint n times in a row queues n misses and
    leaves n more rebuild intervals live. *)
Theorem repeated_cold_polls
    (w : bridge) (type : string) (options : option object) (n : nat) :
  reachable w ->
  localFeedbackCache w !! makeCacheKeyUsingOptions type options = None ->
  cacheMisses (Nat.iter n (step (Poll type options)) w)
  = cacheMisses w ++ repeat (Miss type options) n
  /\ length (rebuildTimers (Nat.iter n (step (Poll type options)) w))
     = (length (rebuildTimers w) + n)%nat.
Proof.
  intros Hr Hcold. induction n as [|n [IHq IHt]].
  - cbn. by rewrite app_nil_r, Nat.add_0_r.
  - rewrite !Nat.iter_succ. cbn [step].
    set (v := Nat.iter n (step (Poll type options)) w) in *.
    assert (Hv : localFeedbackCache v !! makeCacheKeyUsingOptions type options = None)
      by (subst v; by rewrite iter_polls_cache).
    destruct (cold_poll v type options
                (iter_polls_reachable w type options n Hr) Hv) as (v' & -> & Hq & Ht & _).
    split.
    + rewrite Hq, IHq, <- app_assoc. f_equal. symmetry. apply repeat_cons.
    + unfold rebuildTimers in *. rewrite Ht, rebuildTimers_snoc_rebuild, length_app, IHt.
      simpl. lia.
Qed.

Lemma repeated_cold_polls_witness :
  cacheMisses (Nat.iter 3 (step (Poll "actor1~fb1" None)) initial)
  = cacheMisses initial ++ repeat (Miss "actor1~fb1" None) 3
  /\ length (rebuildTimers (Nat.iter 3 (step (Poll "actor1~fb1" None)) initial))
     = (length (rebuildTimers initial) + 3)%nat.
Proof.
  apply (repeated_cold_polls initial "actor1~fb1" None 3).
  - apply reachable_initial.
  - reflexivity.
Defined.


